(** * The repository-listing filter controller ([site/search.js])

    A shallow embedding of the extended search script (text search plus
    language filter buttons) and of its simple predecessor, followed by the
    properties of the filter recomputation, of the availability pass and of
    the toggle buttons.

    Conventions of the embedding.
    - A JavaScript string is a [string] whose characters are the code units
      below 256; case folding and white space are those of the language on
      that range.  A number is a double with an integer value, an infinity
      or [NaN]; parsing rounds to the nearest double and printing gives the
      shortest decimal that names it.
    - The document is a record of the elements the script looks up, taken
      to be distinct elements (no element is at once a card and a section,
      and no two sections share a summary).  A card is identified by its
      position in [cards]; a section lists the positions of the cards below
      it, so the section pass reads the flags the card pass has just
      written.  The section queries select by class only, so a section
      also holds the [hidden] flags of the [.repo-card] elements below it
      that are not in [cards]; the script never writes these.
    - An element that may be missing is an [option]; the script's guards
      ([if (emptyState)], [instanceof HTMLElement], [if (allButton)]) are the
      corresponding matches.
    - A [for ... of] loop whose body writes only the element at hand is a
      [map]; the card loop, which also counts, is a recursive function.
    - The script is embedded twice: as functions from page to page, which
      most properties are about, and in [Checked] as computations that
      record every call on the document and throw on a [null] reference.
      The two are proved to return the same pages. *)

From Stdlib Require Import Ascii String ZArith Lia.
From stdpp Require Import base option list gmap strings pretty.

(** ** The JavaScript primitives the script calls *)

Module Js.

(** White space removed by [String.prototype.trim] and skipped by
    [Number.parseInt], among the code units below 256: TAB, LF, VT, FF, CR,
    SPACE and NO-BREAK SPACE. *)
Definition isWhiteSpace (c : ascii) : bool :=
  let n := nat_of_ascii c in
  (n =? 32) || ((9 <=? n) && (n <=? 13)) || (n =? 160).

(** Lower case of a code unit below 256: A to Z, and the accented capitals
    192 to 222 except the multiplication sign 215, move up by 32. *)
Definition lowerChar (c : ascii) : ascii :=
  let n := nat_of_ascii c in
  if ((65 <=? n) && (n <=? 90))
     || ((192 <=? n) && (n <=? 222) && negb (n =? 215))
  then ascii_of_nat (n + 32) else c.

(** [s.toLowerCase()] *)
Fixpoint toLowerCase (s : string) : string :=
  match s with
  | EmptyString => EmptyString
  | String c s' => String (lowerChar c) (toLowerCase s')
  end.

Fixpoint trimStart (s : string) : string :=
  match s with
  | EmptyString => EmptyString
  | String c s' => if isWhiteSpace c then trimStart s' else s
  end.

Fixpoint trimEnd (s : string) : string :=
  match s with
  | EmptyString => EmptyString
  | String c s' =>
      match trimEnd s' with
      | EmptyString => if isWhiteSpace c then EmptyString else String c EmptyString
      | t => String c t
      end
  end.

(** [s.trim()] *)
Definition trim (s : string) : string := trimEnd (trimStart s).

(** [s.includes(q)]: [q] starts at some position of [s]. *)
Fixpoint includes (s q : string) : bool :=
  String.prefix q s ||
  match s with
  | EmptyString => false
  | String _ s' => includes s' q
  end.

(** A string is falsy exactly when it is empty. *)
Definition truthy (s : string) : bool := negb (String.eqb s "").

(** [v || d] for a value [v] that is a string or [undefined]. *)
Definition or (v : option string) (d : string) : string :=
  match v with
  | Some s => if truthy s then s else d
  | None => d
  end.

(** Numbers, as far as the script meets them: the double whose value is the
    integer [z], an infinity, or [NaN]. *)
Inductive number := Int (z : Z) | Infinity (negative : bool) | NaN.

Definition digit (c : ascii) : option Z :=
  let n := nat_of_ascii c in
  if (48 <=? n) && (n <=? 57) then Some (Z.of_nat (n - 48)) else None.

(** The longest run of decimal digits at the front of [s], folded into
    [acc]; the flag tells whether any digit was read. *)
Fixpoint digits (s : string) (acc : Z) (seen : bool) : Z * bool :=
  match s with
  | EmptyString => (acc, seen)
  | String c s' =>
      match digit c with
      | Some d => digits s' (10 * acc + d)%Z true
      | None => (acc, seen)
      end
  end.

(** The double nearest to the natural number [m], ties going to the even
    significand; a double carries 53 significant bits. *)
Definition roundDouble (m : Z) : Z :=
  let bits := (Z.log2 m + 1)%Z in
  if (bits <=? 53)%Z then m
  else
    let shift := (bits - 53)%Z in
    let q := Z.shiftr m shift in
    let r := (m - Z.shiftl q shift)%Z in
    let half := Z.shiftl 1 (shift - 1) in
    let q := if (half <? r)%Z || ((r =? half)%Z && Z.odd q) then (q + 1)%Z else q in
    Z.shiftl q shift.

(** The Number value of the integer [z]; from [2^1024] on the nearest
    double is an infinity. *)
Definition toNumber (z : Z) : number :=
  let m := roundDouble (Z.abs z) in
  if (2 ^ 1024 <=? m)%Z then Infinity (z <? 0)%Z else Int (Z.sgn z * m).

(** [Number.parseInt(s, 10)] *)
Definition parseInt (s : string) : number :=
  let s1 := trimStart s in
  let '(sign, s2) :=
    match s1 with
    | String "-" r => ((-1)%Z, r)
    | String "+" r => (1%Z, r)
    | _ => (1%Z, s1)
    end in
  match digits s2 0%Z false with
  | (n, true) => toNumber (sign * n)
  | (_, false) => NaN
  end.

(** The decimal with the fewest significant digits whose Number value is
    the double [x]: with [k] significant digits, the multiples of
    [10^(n-k)] on either side of [x] are tried, the nearer one first and
    the even one on a tie; [n] is the number of digits of [x]. *)
Fixpoint shortest (x n k : Z) (fuel : nat) : Z :=
  match fuel with
  | O => x
  | S fuel =>
      let scale := (10 ^ (n - k))%Z in
      let s := (x / scale)%Z in
      let low := (s * scale)%Z in
      let high := ((s + 1) * scale)%Z in
      let lowFits := (roundDouble low =? x)%Z in
      let highFits := (roundDouble high =? x)%Z in
      if lowFits && highFits then
        if (x - low <? high - x)%Z then low
        else if (high - x <? x - low)%Z then high
        else if Z.even s then low else high
      else if lowFits then low
      else if highFits then high
      else shortest x n (k + 1) fuel
  end.

Fixpoint dropTrailingZeros (s : string) : string :=
  match s with
  | EmptyString => EmptyString
  | String c s' =>
      match dropTrailingZeros s' with
      | EmptyString => if Ascii.eqb c "0" then EmptyString else String c EmptyString
      | t => String c t
      end
  end.

(** The text of a double with the non-negative integer value [x].  Below
    [2^53] every integer is a double and no shorter decimal has the same
    Number value, so the text is the integer itself; up to 21 digits the
    shortest decimal is written in full, beyond that with an exponent. *)
Definition renderDouble (x : Z) : string :=
  if (x <? 2 ^ 53)%Z then pretty x
  else
    let n := String.length (pretty x) in
    let d := pretty (shortest x (Z.of_nat n) 1 n) in
    let n := String.length d in
    if n <=? 21 then d
    else
      match dropTrailingZeros d with
      | String c EmptyString => String c ("e+" +:+ pretty (n - 1))
      | String c rest => String c ("." +:+ rest +:+ "e+" +:+ pretty (n - 1))
      | EmptyString => d
      end.

(** The text a number takes inside a template literal. *)
Definition numberToString (n : number) : string :=
  match n with
  | Int z => if (z <? 0)%Z then "-" +:+ renderDouble (- z) else renderDouble z
  | Infinity negative => if negative then "-Infinity" else "Infinity"
  | NaN => "NaN"
  end.

End Js.

(** ** The document *)

(** An element of [.repo-card[data-repo-name]]: its [dataset] entries and its
    [hidden] flag.  The selector makes [data-repo-name] present. *)
Record Card := {
  repoName : string;
  repoLanguage : option string;
  repoDescription : option string;
  card_hidden : bool;
}.

(** The [.section-count] element of a section: its [data-total] attribute and
    its text. *)
Record SectionCount := {
  data_total : option string;
  count_text : string;
}.

(** An element of [.repo-section]: the positions (in [cards]) of the
    [.repo-card[data-repo-name]] elements below it, the [hidden] flags of
    the other [.repo-card] elements below it (those without
    [data-repo-name], which [cards] leaves out), its own [hidden] flag and
    its summary. *)
Record Section := {
  members : list nat;
  strays : list bool;
  section_hidden : bool;
  sectionCount : option SectionCount;
}.

(** An element of [.language-filter[data-language]]: the [data-language]
    value (present by the selector; empty for the "all" button), the
    [aria-pressed] attribute, the [is-active] class and the [hidden] flag. *)
Record Button := {
  language : string;
  ariaPressed : option string;
  isActive : bool;
  button_hidden : bool;
}.

Record Page := {
  cards : list Card;
  sections : list Section;
  emptyState : option bool;          (* [hidden] flag of [#search-empty] *)
  totalCountLabel : option string;   (* text of [#repo-total-count] *)
  languageFilters : list Button;
}.

Definition set_card_hidden (h : bool) (c : Card) : Card :=
  {| repoName := repoName c; repoLanguage := repoLanguage c;
     repoDescription := repoDescription c; card_hidden := h |}.

Definition set_section_hidden (h : bool) (s : Section) : Section :=
  {| members := members s; strays := strays s; section_hidden := h;
     sectionCount := sectionCount s |}.

Definition set_count_text (t : string) (sc : SectionCount) : SectionCount :=
  {| data_total := data_total sc; count_text := t |}.

Definition set_sectionCount (o : option SectionCount) (s : Section) : Section :=
  {| members := members s; strays := strays s;
     section_hidden := section_hidden s; sectionCount := o |}.

Definition set_button_hidden (h : bool) (b : Button) : Button :=
  {| language := language b; ariaPressed := ariaPressed b;
     isActive := isActive b; button_hidden := h |}.

Definition set_languageFilters (bs : list Button) (p : Page) : Page :=
  {| cards := cards p; sections := sections p; emptyState := emptyState p;
     totalCountLabel := totalCountLabel p; languageFilters := bs |}.

(** ** The script *)

Definition searchableText (card : Card) : string :=
  let repoName := Js.or (Some (repoName card)) "" in
  let repoLanguage := Js.or (repoLanguage card) "" in
  let repoDescription := Js.or (repoDescription card) "" in
  Js.toLowerCase (repoName +:+ " " +:+ repoLanguage +:+ " " +:+ repoDescription).

(** [button.getAttribute("aria-pressed") === "true"] *)
Definition pressed (button : Button) : bool :=
  bool_decide (ariaPressed button = Some "true").

(** The buttons [selectedLanguages] keeps: a truthy [data-language] and
    [aria-pressed] equal to ["true"]. *)
Definition selecting (button : Button) : bool :=
  Js.truthy (language button) && pressed button.

Definition selectedLanguages (languageFilters : list Button) : gset string :=
  list_to_set
    (map (λ button, Js.or (Some (language button)) "")
         (filter (λ button, selecting button) languageFilters)).

Definition setButtonPressed (isPressed : bool) (button : Button) : Button :=
  {| language := language button;
     ariaPressed := Some (if isPressed then "true" else "false");
     isActive := isPressed;
     button_hidden := button_hidden button |}.

(** [(button.dataset.language || "") === ""] *)
Definition isAll (button : Button) : bool :=
  String.eqb (Js.or (Some (language button)) "") "".

(** [languageFilters.find(...)]: the position of the first "all" button.  The
    script holds the element itself; its position is what later writes go
    through. *)
Definition allButton (languageFilters : list Button) : option nat :=
  fst <$> list_find (λ button, isAll button) languageFilters.

(** [(card.dataset.repoLanguage || "unknown").toLowerCase()] *)
Definition cardLanguage (card : Card) : string :=
  Js.toLowerCase (Js.or (repoLanguage card) "unknown").

Definition availableLanguages (cards : list Card) : gset string :=
  list_to_set (map cardLanguage cards).

(** The body of the loop of [applyLanguageAvailability] for one button. *)
Definition availability (available : gset string) (button : Button) : Button :=
  let language := Js.toLowerCase (Js.or (Some (language button)) "") in
  if String.eqb language "" then set_button_hidden false button
  else
    let isAvailable := bool_decide (language ∈ available) in
    let button := set_button_hidden (negb isAvailable) button in
    if negb isAvailable then setButtonPressed false button else button.

Definition availabilityButtons (cards : list Card) (languageFilters : list Button)
  : list Button :=
  let available := availableLanguages cards in
  let all := allButton languageFilters in
  let languageFilters := map (availability available) languageFilters in
  match all with
  | Some a =>
      if size (selectedLanguages languageFilters) =? 0
      then alter (setButtonPressed true) a languageFilters
      else languageFilters
  | None => languageFilters
  end.

Definition applyLanguageAvailability (p : Page) : Page :=
  set_languageFilters (availabilityButtons (cards p) (languageFilters p)) p.

(** [searchInput.value.trim().toLowerCase()] *)
Definition queryOf (value : string) : string := Js.toLowerCase (Js.trim value).

Definition queryMatches (query : string) (card : Card) : bool :=
  String.eqb query "" || Js.includes (searchableText card) query.

Definition languageMatches (activeLanguages : gset string) (card : Card) : bool :=
  let hasLanguageFilter := 0 <? size activeLanguages in
  negb hasLanguageFilter || bool_decide (cardLanguage card ∈ activeLanguages).

Definition isVisible (query : string) (activeLanguages : gset string) (card : Card)
  : bool :=
  queryMatches query card && languageMatches activeLanguages card.

(** The first loop of [applyFilter]: every card gets its flag, and
    [visibleCards] counts the ones shown. *)
Fixpoint filterCards (query : string) (activeLanguages : gset string)
    (cards : list Card) (visibleCards : nat) : list Card * nat :=
  match cards with
  | [] => ([], visibleCards)
  | card :: rest =>
      let isVisible := isVisible query activeLanguages card in
      let card := set_card_hidden (negb isVisible) card in
      let visibleCards := if isVisible then visibleCards + 1 else visibleCards in
      let '(rest, visibleCards) := filterCards query activeLanguages rest visibleCards in
      (card :: rest, visibleCards)
  end.

(** The members of a section matched by [.repo-card:not([hidden])]; a
    position outside [cards] stands for no element. *)
Definition shown (cards : list Card) (i : nat) : bool :=
  match cards !! i with
  | Some card => negb (card_hidden card)
  | None => false
  end.

Definition shownMembers (cards : list Card) (section : Section) : list nat :=
  filter (λ i, shown cards i) (members section).

(** The [.repo-card] elements of a section outside [cards] that are not
    hidden. *)
Definition shownStrays (section : Section) : list bool :=
  filter (λ h, h = false) (strays section).

(** [section.querySelectorAll(".repo-card:not([hidden])").length]; the
    [querySelector] of the second loop finds an element exactly when this
    is not zero. *)
Definition visibleRepoCards (cards : list Card) (section : Section) : nat :=
  length (shownMembers cards section) + length (shownStrays section).

(** The second loop of [applyFilter]. *)
Definition filterSection (isFiltering : bool) (cards : list Card) (section : Section)
  : Section :=
  if negb isFiltering then set_section_hidden false section
  else
    let hasVisibleCard := negb (visibleRepoCards cards section =? 0) in
    set_section_hidden (negb hasVisibleCard) section.

(** The last loop of [applyFilter]. *)
Definition countSection (cards : list Card) (section : Section) : Section :=
  match sectionCount section with
  | None => section
  | Some sc =>
      let sectionTotal := Js.parseInt (Js.or (data_total sc) "0") in
      let sectionVisible := visibleRepoCards cards section in
      set_sectionCount
        (Some (set_count_text
                 ("Repositories: " +:+ pretty sectionVisible +:+ "/"
                    +:+ Js.numberToString sectionTotal) sc))
        section
  end.

Definition applyFilter (totalCount : nat) (value : string) (p : Page) : Page :=
  let query := queryOf value in
  let activeLanguages := selectedLanguages (languageFilters p) in
  let hasLanguageFilter := 0 <? size activeLanguages in
  let isFiltering := negb (String.eqb query "") || hasLanguageFilter in
  let '(cards, visibleCards) := filterCards query activeLanguages (cards p) 0 in
  let sections := map (filterSection isFiltering cards) (sections p) in
  let emptyState :=
    (λ _ : bool, negb isFiltering || (0 <? visibleCards)) <$> emptyState p in
  let totalCountLabel :=
    (λ _ : string,
       "Public repositories: " +:+ pretty visibleCards +:+ "/" +:+ pretty totalCount)
      <$> totalCountLabel p in
  let sections := map (countSection cards) sections in
  {| cards := cards; sections := sections; emptyState := emptyState;
     totalCountLabel := totalCountLabel; languageFilters := languageFilters p |}.

(** The click listener of the button at position [i], up to its call of
    [applyFilter]. *)
Definition clickButtons (i : nat) (languageFilters : list Button) : list Button :=
  match languageFilters !! i with
  | None => languageFilters
  | Some button =>
      let language := Js.or (Some (language button)) "" in
      let all := allButton languageFilters in
      if String.eqb language "" then
        map (λ filterButton, setButtonPressed (isAll filterButton) filterButton)
            languageFilters
      else
        let languageFilters :=
          alter (λ b, setButtonPressed (negb (pressed b)) b) i languageFilters in
        let languageFilters :=
          match all with
          | Some a => alter (setButtonPressed false) a languageFilters
          | None => languageFilters
          end in
        let hasAnySpecificFilter := 0 <? size (selectedLanguages languageFilters) in
        match all with
        | Some a =>
            if negb hasAnySpecificFilter
            then alter (setButtonPressed true) a languageFilters
            else languageFilters
        | None => languageFilters
        end
  end.

Definition click (totalCount : nat) (value : string) (i : nat) (p : Page) : Page :=
  match languageFilters p !! i with
  | None => p
  | Some _ =>
      applyFilter totalCount value
        (set_languageFilters (clickButtons i (languageFilters p)) p)
  end.

(** The script as a whole: [searchInput] is the value of [#repo-search] when
    that element is an [HTMLInputElement].  Without it the script returns at
    once. *)
Definition main (searchInput : option string) (p : Page) : Page :=
  match searchInput with
  | None => p
  | Some value =>
      let totalCount := length (cards p) in
      applyFilter totalCount value (applyLanguageAvailability p)
  end.

(** What the listeners close over, with the page they act on. *)
Record Controller := {
  totalCount : nat;
  value : string;
  page : Page;
}.

Definition start (value : string) (p : Page) : Controller :=
  {| totalCount := length (cards p); value := value; page := main (Some value) p |}.

Inductive Event :=
| InputEvent (text : string)
| ClickEvent (i : nat).

Definition handle (k : Controller) (e : Event) : Controller :=
  match e with
  | InputEvent text =>
      {| totalCount := totalCount k; value := text;
         page := applyFilter (totalCount k) text (page k) |}
  | ClickEvent i =>
      {| totalCount := totalCount k; value := value k;
         page := click (totalCount k) (value k) i (page k) |}
  end.

Definition run (k : Controller) (events : list Event) : Controller :=
  foldl handle k events.

(** ** The simple variant (text search only) *)

Module Simple.

Fixpoint filterCards (query : string) (cards : list Card) (visibleCards : nat)
  : list Card * nat :=
  match cards with
  | [] => ([], visibleCards)
  | card :: rest =>
      let isVisible := String.eqb query "" || Js.includes (searchableText card) query in
      let card := set_card_hidden (negb isVisible) card in
      let visibleCards := if isVisible then visibleCards + 1 else visibleCards in
      let '(rest, visibleCards) := filterCards query rest visibleCards in
      (card :: rest, visibleCards)
  end.

Definition filterSection (query : string) (cards : list Card) (section : Section)
  : Section :=
  if String.eqb query "" then set_section_hidden false section
  else
    let hasVisibleCard := negb (visibleRepoCards cards section =? 0) in
    set_section_hidden (negb hasVisibleCard) section.

Definition applyFilter (value : string) (p : Page) : Page :=
  let query := queryOf value in
  let '(cards, visibleCards) := filterCards query (cards p) 0 in
  let sections := map (filterSection query cards) (sections p) in
  let emptyState :=
    (λ _ : bool, String.eqb query "" || (0 <? visibleCards)) <$> emptyState p in
  {| cards := cards; sections := sections; emptyState := emptyState;
     totalCountLabel := totalCountLabel p; languageFilters := languageFilters p |}.

Definition main (searchInput : option string) (p : Page) : Page :=
  match searchInput with
  | None => p
  | Some value => applyFilter value p
  end.

End Simple.

(** ** The scenarios of the specification, run on the model *)

Definition alpha : Card :=
  {| repoName := "alpha"; repoLanguage := Some "rust";
     repoDescription := Some "cli tool"; card_hidden := false |}.

Definition beta : Card :=
  {| repoName := "beta"; repoLanguage := Some "go";
     repoDescription := Some "server"; card_hidden := false |}.

Definition filterButton (l : string) (isPressed : bool) : Button :=
  {| language := l; ariaPressed := Some (if isPressed then "true" else "false");
     isActive := isPressed; button_hidden := false |}.

Definition group (ms : list nat) (n : string) : Section :=
  {| members := ms; strays := []; section_hidden := false;
     sectionCount := Some {| data_total := Some n; count_text := "" |} |}.

Definition demo : Page :=
  {| cards := [alpha; beta];
     sections := [group [0] "1"; group [1] "1"];
     emptyState := Some true;
     totalCountLabel := Some "";
     languageFilters :=
       [filterButton "" true; filterButton "rust" false;
        filterButton "go" false; filterButton "kotlin" false] |}.

(** ** Vocabulary of the statements *)

(** [q] occurs in [s]. *)
Definition substring_of (q s : string) : Prop :=
  ∃ pre post, s = pre +:+ q +:+ post.

(** Name, category and description joined by single spaces; a missing
    attribute contributes the empty string. *)
Definition joined (c : Card) : string :=
  repoName c +:+ " " +:+ default "" (repoLanguage c) +:+ " "
    +:+ default "" (repoDescription c).

(** A card has no category when the attribute is missing or empty. *)
Definition uncategorised (c : Card) : Prop :=
  repoLanguage c = None ∨ repoLanguage c = Some "".

(** The category used for language matching, with the sentinel. *)
Definition category (c : Card) : string :=
  match repoLanguage c with
  | Some l => if decide (l = "") then "unknown" else l
  | None => "unknown"
  end.

Definition query_matches (q : string) (c : Card) : Prop :=
  q = "" ∨ substring_of q (Js.toLowerCase (joined c)).

Definition language_matches (S : gset string) (c : Card) : Prop :=
  S = ∅ ∨ Js.toLowerCase (category c) ∈ S.

(** The card keeps its attributes; only the flag may differ. *)
Definition same_card (c c' : Card) : Prop :=
  repoName c' = repoName c ∧ repoLanguage c' = repoLanguage c
  ∧ repoDescription c' = repoDescription c.

(** Filtering is active: a text constraint or a category constraint. *)
Definition filtering (q : string) (S : gset string) : Prop := q ≠ "" ∨ S ≠ ∅.

(** The number of cards shown. *)
Definition visible_count (cs : list Card) : nat :=
  length (filter (λ c, card_hidden c = false) cs).

(** The card at position [i] exists and is shown. *)
Definition is_shown (cs : list Card) (i : nat) : Prop :=
  ∃ c, cs !! i = Some c ∧ card_hidden c = false.

Global Instance is_shown_dec (cs : list Card) (i : nat) : Decision (is_shown cs i).
Proof.
  unfold is_shown. destruct (cs !! i) as [c|].
  - destruct (decide (card_hidden c = false)) as [H|H].
    + left. by exists c.
    + right. intros (c' & [= <-] & ?). done.
  - right. by intros (c' & ? & ?).
Defined.

(** The number of cards of a section that are shown. *)
Definition section_visible (cs : list Card) (s : Section) : nat :=
  length (filter (is_shown cs) (members s)).

(** The section holds at least one card that is shown. *)
Definition has_shown_card (cs : list Card) (s : Section) : Prop :=
  ∃ i, i ∈ members s ∧ is_shown cs i.

(** The section holds a [.repo-card] element outside the card collection
    that is not hidden. *)
Definition has_shown_stray (s : Section) : Prop := false ∈ strays s.

(** The number of [.repo-card] elements of a section that are not hidden:
    its cards that are shown, and the elements outside the collection. *)
Definition section_repo_cards (cs : list Card) (s : Section) : nat :=
  section_visible cs s + length (filter (λ h, h = false) (strays s)).

(** A page with a [.repo-card] element that has no name: it is below the
    section without being in [cards], and it is not hidden. *)
Definition nameless : Page :=
  {| cards := [alpha];
     sections :=
       [ {| members := [0]; strays := [false]; section_hidden := false;
            sectionCount := Some {| data_total := Some "2"; count_text := "" |} |} ];
     emptyState := Some true; totalCountLabel := Some "";
     languageFilters := [] |}.

(** The number written after the slash of a section summary. *)
Definition section_total (sc : SectionCount) : Js.number :=
  Js.parseInt (Js.or (data_total sc) "0").

Definition global_summary (visible all : nat) : string :=
  "Public repositories: " +:+ pretty visible +:+ "/" +:+ pretty all.

Definition section_summary (visible : nat) (all : Js.number) : string :=
  "Repositories: " +:+ pretty visible +:+ "/" +:+ Js.numberToString all.

(** ** The toggle state machine of the specification *)

(** The pressed flags of a button group: the flag of the "all" button, if
    the group has one, and the positions of the pressed specific buttons. *)
Record Toggle := {
  all_on : option bool;
  chosen : gset nat;
}.

Definition AllSelected : Toggle := {| all_on := Some true; chosen := ∅ |}.

Definition press_all (t : Toggle) : Toggle :=
  {| all_on := (λ _, true) <$> all_on t; chosen := chosen t |}.

Definition unpress_all (t : Toggle) : Toggle :=
  {| all_on := (λ _, false) <$> all_on t; chosen := chosen t |}.

Definition unpress_specific (t : Toggle) : Toggle :=
  {| all_on := all_on t; chosen := ∅ |}.

Definition flip (i : nat) (t : Toggle) : Toggle :=
  {| all_on := all_on t;
     chosen := if decide (i ∈ chosen t) then chosen t ∖ {[i]} else chosen t ∪ {[i]} |}.

Inductive Target :=
| AllButton
| SpecificButton (i : nat).

(** The transition of the specification, in its words: on "all", unpress
    every specific button and press "all"; on a specific button, flip it,
    unpress "all", and press "all" instead when nothing is left selected. *)
Definition spec_click (b : Target) (t : Toggle) : Toggle :=
  match b with
  | AllButton => press_all (unpress_specific t)
  | SpecificButton i =>
      let t := unpress_all (flip i t) in
      if decide (chosen t = ∅) then press_all t else t
  end.

(** Reading the state off the buttons. *)
Definition selectingAt (bs : list Button) (i : nat) : bool :=
  match bs !! i with
  | Some b => selecting b
  | None => false
  end.

Definition pressedSpecific (bs : list Button) : gset nat :=
  list_to_set (filter (λ i, selectingAt bs i) (seq 0 (length bs))).

Definition toggle_of (bs : list Button) : Toggle :=
  {| all_on := a ← allButton bs; pressed <$> bs !! a;
     chosen := pressedSpecific bs |}.

Definition target_of (b : Button) (i : nat) : Target :=
  if decide (language b = "") then AllButton else SpecificButton i.

(** ** The exclusivity invariant *)

Definition all_pressed (bs : list Button) : Prop :=
  ∃ a b, allButton bs = Some a ∧ bs !! a = Some b ∧ pressed b = true.

Definition specific_pressed (bs : list Button) : Prop :=
  ∃ i b, bs !! i = Some b ∧ language b ≠ "" ∧ pressed b = true.

Definition exactly_one (P Q : Prop) : Prop := (P ∧ ¬ Q) ∨ (Q ∧ ¬ P).

Definition exclusive (bs : list Button) : Prop :=
  exactly_one (all_pressed bs ∧ ¬ specific_pressed bs)
              (specific_pressed bs ∧ ¬ all_pressed bs).

(** A group without an "all" button. *)
Definition rustOnly : Page :=
  {| cards := [alpha]; sections := []; emptyState := None;
     totalCountLabel := None; languageFilters := [filterButton "rust" true] |}.

(** ** What the script never writes *)

Definition card_attributes (c : Card) : string * option string * option string :=
  (repoName c, repoLanguage c, repoDescription c).

Definition section_frame (s : Section)
  : list nat * list bool * option (option string) :=
  (members s, strays s, data_total <$> sectionCount s).

(** The elements of a page and their fixed attributes, without the flags
    and texts the script maintains. *)
Record Layout := {
  layout_cards : list (string * option string * option string);
  layout_sections : list (list nat * list bool * option (option string));
  layout_emptyState : option unit;
  layout_totalCountLabel : option unit;
  layout_languages : list string;
}.

Definition layout (p : Page) : Layout :=
  {| layout_cards := card_attributes <$> cards p;
     layout_sections := section_frame <$> sections p;
     layout_emptyState := const () <$> emptyState p;
     layout_totalCountLabel := const () <$> totalCountLabel p;
     layout_languages := language <$> languageFilters p |}.

(** The summaries of a page agree with its own flags. *)
Definition summaries (tc : nat) (p : Page) : Prop :=
  (∀ t, totalCountLabel p = Some t →
        t = global_summary (visible_count (cards p)) tc)
  ∧ (∀ j s sc, sections p !! j = Some s → sectionCount s = Some sc →
        count_text sc
        = section_summary (section_repo_cards (cards p) s) (section_total sc)).

(** [c] occurs in [s]. *)
Fixpoint has_char (c : ascii) (s : string) : bool :=
  match s with
  | EmptyString => false
  | String x s' => Ascii.eqb x c || has_char c s'
  end.

(** A card without a category. *)
Definition gamma : Card :=
  {| repoName := "gamma"; repoLanguage := None;
     repoDescription := Some "misc scripts"; card_hidden := false |}.

(** ** Buttons without cards *)

(** The value of a specific button that is the category of no card, both
    sides lower-cased as the availability pass compares them. *)
Definition unavailable (cs : list Card) (l : string) : Prop :=
  l ≠ "" ∧ ∀ c, c ∈ cs → Js.toLowerCase (category c) ≠ Js.toLowerCase l.

(** Every button without cards is hidden and not pressed. *)
Definition inert (cs : list Card) (bs : list Button) : Prop :=
  ∀ j b, bs !! j = Some b → unavailable cs (language b) →
         button_hidden b = true ∧ pressed b = false.

(** No click event goes to a button without cards. *)
Definition clicks_on_available (p : Page) (events : list Event) : Prop :=
  ∀ i b, ClickEvent i ∈ events → languageFilters p !! i = Some b →
         ¬ unavailable (cards p) (language b).

(** A card whose name contains the sentinel and that has no category. *)
Definition unknownTool : Card :=
  {| repoName := "unknown-tool"; repoLanguage := None;
     repoDescription := None; card_hidden := false |}.

(** ** Pages that lack an optional element *)

Definition without_emptyState (p : Page) : Page :=
  {| cards := cards p; sections := sections p; emptyState := None;
     totalCountLabel := totalCountLabel p; languageFilters := languageFilters p |}.

Definition without_totalCountLabel (p : Page) : Page :=
  {| cards := cards p; sections := sections p; emptyState := emptyState p;
     totalCountLabel := None; languageFilters := languageFilters p |}.

Definition without_sectionCount (j : nat) (p : Page) : Page :=
  {| cards := cards p;
     sections := alter (set_sectionCount None) j (sections p);
     emptyState := emptyState p; totalCountLabel := totalCountLabel p;
     languageFilters := languageFilters p |}.

Definition without_languageFilters (p : Page) : Page := set_languageFilters [] p.

(** ** Vocabulary of the further properties *)

(** Every character of [s] is white space. *)
Fixpoint blank (s : string) : bool :=
  match s with
  | EmptyString => true
  | String c s' => Js.isWhiteSpace c && blank s'
  end.

(** [s] is empty or starts with a character that is not white space. *)
Definition starts_clean (s : string) : Prop :=
  match s with
  | EmptyString => True
  | String c _ => Js.isWhiteSpace c = false
  end.

(** The [is-active] class of a button says what [aria-pressed] says. *)
Definition in_sync (b : Button) : Prop := isActive b = pressed b.

(** A page whose section summaries carry no usable total. *)
Definition untotalled : Page :=
  {| cards := [alpha];
     sections :=
       [ {| members := [0]; strays := []; section_hidden := false;
            sectionCount := Some {| data_total := None; count_text := "" |} |};
         group [0] "n/a" ];
     emptyState := None; totalCountLabel := None; languageFilters := [] |}.

(** ** The script with its accesses to the document

    The script once more, statement by statement, as a computation that
    records every call it makes on the document and that can fail.  A
    reference that may be [null] or [undefined] is an [option], reading or
    writing a property through it is [the], which throws a [TypeError] on
    [None]; the script's guards are tests on the reference.  The elements of
    the arrays ([cards], [sections], [languageFilters]) are never [null];
    an element of an array is handled as its position with its state. *)

Module Checked.

Inductive Element :=
| SearchInput
| EmptyState
| TotalCountLabel
| CardAt (i : nat)
| SectionAt (j : nat)
| SectionCountAt (j : nat)
| ButtonAt (k : nat).

Global Instance Element_eq_dec : EqDecision Element.
Proof. solve_decision. Defined.

(** The calls on the document: the two lookups of [document], a query
    below an element, a property or attribute read, a property, attribute
    or class written, and a listener registered. *)
Inductive Access :=
| GetElementById (id : string)
| QuerySelectorAll (selector : string)
| QuerySelector (e : Element) (selector : string)
| Get (e : Element) (property : string)
| Put (e : Element) (property : string)
| AddEventListener (e : Element) (type : string).

(** What a run of a piece of the script comes to: the calls made, in
    order, and the value returned, or [None] when an exception was
    thrown. *)
Record Outcome (A : Type) := {
  trace : list Access;
  result : option A;
}.

Arguments trace {A} _.
Arguments result {A} _.

Definition ret {A : Type} (a : A) : Outcome A := {| trace := []; result := Some a |}.

(** Sequencing: the second piece runs unless the first one threw. *)
Definition bind {A B : Type} (m : Outcome A) (f : A → Outcome B) : Outcome B :=
  match result m with
  | Some a => {| trace := trace m ++ trace (f a); result := result (f a) |}
  | None => {| trace := trace m; result := None |}
  end.

Declare Scope outcome_scope.
Notation "x ← y ; z" := (bind y (λ x, z))
  (at level 20, y at level 100, z at level 200, only parsing) : outcome_scope.
Notation "' x ← y ; z" := (bind y (λ x, z))
  (at level 20, x pattern, y at level 100, z at level 200, only parsing) : outcome_scope.
Notation "x ;; z" := (bind x (λ _, z))
  (at level 100, z at level 200, only parsing, right associativity) : outcome_scope.
Local Open Scope outcome_scope.

Definition tell (a : Access) : Outcome unit := {| trace := [a]; result := Some tt |}.

Definition throw {A : Type} : Outcome A := {| trace := []; result := None |}.

(** Going through a reference: a [TypeError] when it is [null] or
    [undefined]. *)
Definition the {A : Type} (reference : option A) : Outcome A :=
  match reference with
  | Some a => ret a
  | None => throw
  end.

(** The guards [if (reference)] and [reference instanceof HTMLElement]. *)
Definition isElement {A : Type} (reference : option A) : bool :=
  match reference with
  | Some _ => true
  | None => false
  end.

(** [reference.property], read. *)
Definition get {A B : Type} (e : Element) (property : string)
    (reference : option A) (read : A → B) : Outcome B :=
  a ← the reference;
  tell (Get e property);;
  ret (read a).

(** [reference.property = ...] *)
Definition put {A : Type} (e : Element) (property : string)
    (reference : option A) (assign : A → A) : Outcome (option A) :=
  a ← the reference;
  tell (Put e property);;
  ret (Some (assign a)).

(** The elements of an array with their positions, from position [i] on. *)
Fixpoint handlesFrom {A : Type} (i : nat) (l : list A) : list (nat * A) :=
  match l with
  | [] => []
  | x :: l => (i, x) :: handlesFrom (S i) l
  end.

Definition handles {A : Type} (l : list A) : list (nat * A) := handlesFrom 0 l.

(** [for (const x of l)] with a body that leaves a new state of [x], and
    [l.map(f)]. *)
Fixpoint forOf {A B : Type} (body : A → Outcome B) (l : list A) : Outcome (list B) :=
  match l with
  | [] => ret []
  | x :: l =>
      y ← body x;
      ys ← forOf body l;
      ret (y :: ys)
  end.

(** [l.filter(keep)] *)
Fixpoint filterOf {A : Type} (keep : A → Outcome bool) (l : list A) : Outcome (list A) :=
  match l with
  | [] => ret []
  | x :: l =>
      b ← keep x;
      xs ← filterOf keep l;
      ret (if b then x :: xs else xs)
  end.

(** [l.find(test)]: the callback is not called beyond the element found. *)
Fixpoint findOf {A : Type} (test : A → Outcome bool) (l : list A) : Outcome (option A) :=
  match l with
  | [] => ret None
  | x :: l =>
      b ← test x;
      if b then ret (Some x) else findOf test l
  end.

Definition searchableText (element : nat * Card) : Outcome string :=
  let '(i, card) := element in
  tell (Get (CardAt i) "data-repo-name");;
  let repoName := Js.or (Some (repoName card)) "" in
  tell (Get (CardAt i) "data-repo-language");;
  let repoLanguage := Js.or (repoLanguage card) "" in
  tell (Get (CardAt i) "data-repo-description");;
  let repoDescription := Js.or (repoDescription card) "" in
  ret (Js.toLowerCase (repoName +:+ " " +:+ repoLanguage +:+ " " +:+ repoDescription)).

Definition selectedLanguages (languageFilters : list Button) : Outcome (gset string) :=
  kept ← filterOf
            (λ '(k, button),
               tell (Get (ButtonAt k) "data-language");;
               if Js.truthy (language button)
               then tell (Get (ButtonAt k) "aria-pressed");;
                    ret (bool_decide (ariaPressed button = Some "true"))
               else ret false)
            (handles languageFilters);
  values ← forOf
              (λ '(k, button),
                 tell (Get (ButtonAt k) "data-language");;
                 ret (Js.or (Some (language button)) ""))
              kept;
  ret (list_to_set values).

Definition setButtonPressed (element : nat * Button) (isPressed : bool) : Outcome Button :=
  let '(k, button) := element in
  tell (Put (ButtonAt k) "aria-pressed");;
  tell (Put (ButtonAt k) "class");;
  ret {| language := language button;
          ariaPressed := Some (if isPressed then "true" else "false");
          isActive := isPressed;
          button_hidden := button_hidden button |}.

(** [setButtonPressed(allButton, isPressed)], where [allButton] is what
    [find] returned: a position in [languageFilters] or [undefined]. *)
Definition setPressedThrough (allButton : option nat) (isPressed : bool)
    (languageFilters : list Button) : Outcome (list Button) :=
  a ← the allButton;
  match languageFilters !! a with
  | Some button =>
      button ← setButtonPressed (a, button) isPressed;
      ret (<[a := button]> languageFilters)
  | None => ret languageFilters
  end.

(** [languageFilters.find((button) => (button.dataset.language || "") === "")] *)
Definition allButton (languageFilters : list Button) : Outcome (option nat) :=
  found ← findOf
             (λ '(k, button),
                tell (Get (ButtonAt k) "data-language");;
                ret (String.eqb (Js.or (Some (language button)) "") ""))
             (handles languageFilters);
  ret (fst <$> found).

Definition applyLanguageAvailability (p : Page) : Outcome Page :=
  languages ← forOf
                 (λ '(i, card),
                    tell (Get (CardAt i) "data-repo-language");;
                    ret (Js.toLowerCase (Js.or (repoLanguage card) "unknown")))
                 (handles (cards p));
  let availableLanguages : gset string := list_to_set languages in
  allButton ← allButton (languageFilters p);
  languageFilters ← forOf
    (λ '(k, button),
       tell (Get (ButtonAt k) "data-language");;
       let language := Js.toLowerCase (Js.or (Some (language button)) "") in
       if String.eqb language "" then
         tell (Put (ButtonAt k) "hidden");;
         ret (set_button_hidden false button)
       else
         let isAvailable := bool_decide (language ∈ availableLanguages) in
         tell (Put (ButtonAt k) "hidden");;
         let button := set_button_hidden (negb isAvailable) button in
         if negb isAvailable then setButtonPressed (k, button) false else ret button)
    (handles (languageFilters p));
  noneSelected ←
    (if isElement allButton
     then selected ← selectedLanguages languageFilters; ret (size selected =? 0)
     else ret false);
  languageFilters ←
    (if noneSelected
     then setPressedThrough allButton true languageFilters
     else ret languageFilters);
  ret (set_languageFilters languageFilters p).

(** The first loop of [applyFilter]. *)
Fixpoint filterCards (query : string) (activeLanguages : gset string)
    (hasLanguageFilter : bool) (cards : list (nat * Card)) (visibleCards : nat)
  : Outcome (list Card * nat) :=
  match cards with
  | [] => ret ([], visibleCards)
  | (i, card) :: rest =>
      tell (Get (CardAt i) "data-repo-language");;
      let cardLanguage := Js.toLowerCase (Js.or (repoLanguage card) "unknown") in
      queryMatches ←
        (if String.eqb query "" then ret true
         else text ← searchableText (i, card); ret (Js.includes text query));
      let languageMatches :=
        negb hasLanguageFilter || bool_decide (cardLanguage ∈ activeLanguages) in
      let isVisible := queryMatches && languageMatches in
      tell (Put (CardAt i) "hidden");;
      let card := set_card_hidden (negb isVisible) card in
      let visibleCards := if isVisible then visibleCards + 1 else visibleCards in
      '(rest, visibleCards) ←
        filterCards query activeLanguages hasLanguageFilter rest visibleCards;
      ret (card :: rest, visibleCards)
  end.

Definition applyFilter (totalCount : nat) (searchInput : string) (p : Page)
  : Outcome Page :=
  tell (Get SearchInput "value");;
  let query := Js.toLowerCase (Js.trim searchInput) in
  activeLanguages ← selectedLanguages (languageFilters p);
  let hasLanguageFilter := 0 <? size activeLanguages in
  let isFiltering := negb (String.eqb query "") || hasLanguageFilter in
  '(cards, visibleCards) ←
    filterCards query activeLanguages hasLanguageFilter (handles (cards p)) 0;
  sections ← forOf
    (λ '(j, section),
       if negb isFiltering then
         tell (Put (SectionAt j) "hidden");;
         ret (set_section_hidden false section)
       else
         tell (QuerySelector (SectionAt j) ".repo-card:not([hidden])");;
         let hasVisibleCard := negb (visibleRepoCards cards section =? 0) in
         tell (Put (SectionAt j) "hidden");;
         ret (set_section_hidden (negb hasVisibleCard) section))
    (handles (sections p));
  emptyState ←
    (if isElement (emptyState p)
     then put EmptyState "hidden" (emptyState p)
            (λ _, negb isFiltering || (0 <? visibleCards))
     else ret (emptyState p));
  totalCountLabel ←
    (if isElement (totalCountLabel p)
     then put TotalCountLabel "textContent" (totalCountLabel p)
            (λ _, "Public repositories: " +:+ pretty visibleCards +:+ "/"
                    +:+ pretty totalCount)
     else ret (totalCountLabel p));
  sections ← forOf
    (λ '(j, section),
       tell (QuerySelector (SectionAt j) ".section-count");;
       let sectionCount := sectionCount section in
       if negb (isElement sectionCount) then ret section
       else
         total ← get (SectionCountAt j) "data-total" sectionCount data_total;
         let sectionTotal := Js.parseInt (Js.or total "0") in
         tell (QuerySelector (SectionAt j) ".repo-card:not([hidden])");;
         let sectionVisible := visibleRepoCards cards section in
         sectionCount ← put (SectionCountAt j) "textContent" sectionCount
                          (set_count_text
                             ("Repositories: " +:+ pretty sectionVisible +:+ "/"
                                +:+ Js.numberToString sectionTotal));
         ret (set_sectionCount sectionCount section))
    (handles sections);
  ret {| cards := cards; sections := sections; emptyState := emptyState;
          totalCountLabel := totalCountLabel; languageFilters := languageFilters p |}.

(** The click listener of the button at position [k]; a position without a
    button has no listener. *)
Definition click (totalCount : nat) (searchInput : string) (k : nat) (p : Page)
  : Outcome Page :=
  match languageFilters p !! k with
  | None => ret p
  | Some button =>
      tell (Get (ButtonAt k) "data-language");;
      let language := Js.or (Some (language button)) "" in
      allButton ← allButton (languageFilters p);
      if String.eqb language "" then
        languageFilters ← forOf
          (λ '(m, filterButton),
             tell (Get (ButtonAt m) "data-language");;
             setButtonPressed (m, filterButton) (isAll filterButton))
          (handles (languageFilters p));
        applyFilter totalCount searchInput (set_languageFilters languageFilters p)
      else
        tell (Get (ButtonAt k) "aria-pressed");;
        button ← setButtonPressed (k, button)
                    (negb (bool_decide (ariaPressed button = Some "true")));
        let languageFilters := <[k := button]> (languageFilters p) in
        languageFilters ←
          (if isElement allButton
           then setPressedThrough allButton false languageFilters
           else ret languageFilters);
        selected ← selectedLanguages languageFilters;
        let hasAnySpecificFilter := 0 <? size selected in
        languageFilters ←
          (if negb hasAnySpecificFilter && isElement allButton
           then setPressedThrough allButton true languageFilters
           else ret languageFilters);
        applyFilter totalCount searchInput (set_languageFilters languageFilters p)
  end.

(** The script as a whole; [searchInput] is the value of [#repo-search]
    when that element is an [HTMLInputElement]. *)
Definition main (searchInput : option string) (p : Page) : Outcome Page :=
  tell (GetElementById "repo-search");;
  if negb (isElement searchInput) then ret p
  else
    tell (QuerySelectorAll ".repo-card[data-repo-name]");;
    tell (QuerySelectorAll ".repo-section");;
    tell (GetElementById "search-empty");;
    let totalCount := length (cards p) in
    tell (GetElementById "repo-total-count");;
    tell (QuerySelectorAll ".language-filter[data-language]");;
    forOf (λ '(k, _), tell (AddEventListener (ButtonAt k) "click"))
      (handles (languageFilters p));;
    p ← applyLanguageAvailability p;
    tell (AddEventListener SearchInput "input");;
    value ← the searchInput;
    applyFilter totalCount value p.

(** The writes among the calls of a trace. *)
Definition writes (t : list Access) : list (Element * string) :=
  omap (λ a, match a with Put e property => Some (e, property) | _ => None end) t.

(** The simple variant. *)
Module Simple.

Fixpoint filterCards (query : string) (cards : list (nat * Card)) (visibleCards : nat)
  : Outcome (list Card * nat) :=
  match cards with
  | [] => ret ([], visibleCards)
  | (i, card) :: rest =>
      isVisible ←
        (if String.eqb query "" then ret true
         else text ← searchableText (i, card); ret (Js.includes text query));
      tell (Put (CardAt i) "hidden");;
      let card := set_card_hidden (negb isVisible) card in
      let visibleCards := if isVisible then visibleCards + 1 else visibleCards in
      '(rest, visibleCards) ← filterCards query rest visibleCards;
      ret (card :: rest, visibleCards)
  end.

Definition applyFilter (searchInput : string) (p : Page) : Outcome Page :=
  tell (Get SearchInput "value");;
  let query := Js.toLowerCase (Js.trim searchInput) in
  '(cards, visibleCards) ← filterCards query (handles (cards p)) 0;
  sections ← forOf
    (λ '(j, section),
       if String.eqb query "" then
         tell (Put (SectionAt j) "hidden");;
         ret (set_section_hidden false section)
       else
         tell (QuerySelector (SectionAt j) ".repo-card:not([hidden])");;
         let hasVisibleCard := negb (visibleRepoCards cards section =? 0) in
         tell (Put (SectionAt j) "hidden");;
         ret (set_section_hidden (negb hasVisibleCard) section))
    (handles (sections p));
  emptyState ←
    (if isElement (emptyState p)
     then put EmptyState "hidden" (emptyState p)
            (λ _, String.eqb query "" || (0 <? visibleCards))
     else ret (emptyState p));
  ret {| cards := cards; sections := sections; emptyState := emptyState;
          totalCountLabel := totalCountLabel p; languageFilters := languageFilters p |}.

Definition main (searchInput : option string) (p : Page) : Outcome Page :=
  tell (GetElementById "repo-search");;
  if negb (isElement searchInput) then ret p
  else
    tell (QuerySelectorAll ".repo-card[data-repo-name]");;
    tell (QuerySelectorAll ".repo-section");;
    tell (GetElementById "search-empty");;
    tell (AddEventListener SearchInput "input");;
    value ← the searchInput;
    applyFilter value p.

End Simple.

End Checked.

(** ** Vocabulary of the checked script *)

(** The entry of an element that may be missing. *)
Definition when {A B : Type} (o : option A) (x : B) : list B :=
  match o with Some _ => [x] | None => [] end.

(** A piece of the checked script returns [a] without throwing, and its
    writes are [w]. *)
Definition computes {A : Type} (m : Checked.Outcome A) (a : A)
    (w : list (Checked.Element * string)) : Prop :=
  Checked.result m = Some a ∧ Checked.writes (Checked.trace m) = w.

(** The writes of one recomputation, in order: the flag of every card, the
    flag of every section, the "no results" element and the global summary
    if there are any, and the summary of every section that has one. *)
Definition recomputation_writes (p : Page) : list (Checked.Element * string) :=
  ((λ i, (Checked.CardAt i, "hidden")) <$> seq 0 (length (cards p)))
  ++ ((λ j, (Checked.SectionAt j, "hidden")) <$> seq 0 (length (sections p)))
  ++ when (emptyState p) (Checked.EmptyState, "hidden")
  ++ when (totalCountLabel p) (Checked.TotalCountLabel, "textContent")
  ++ (Checked.handles (sections p)
        ≫= λ '(j, section),
             when (sectionCount section) (Checked.SectionCountAt j, "textContent")).

(** The same for the simple script, which has no summaries. *)
Definition simple_recomputation_writes (p : Page) : list (Checked.Element * string) :=
  ((λ i, (Checked.CardAt i, "hidden")) <$> seq 0 (length (cards p)))
  ++ ((λ j, (Checked.SectionAt j, "hidden")) <$> seq 0 (length (sections p)))
  ++ when (emptyState p) (Checked.EmptyState, "hidden").

(** * Properties *)

(** ** Strings *)

Lemma append_cons (c : ascii) (s t : string) : String c s +:+ t = String c (s +:+ t).
Proof. reflexivity. Qed.

Lemma append_nil_l (t : string) : "" +:+ t = t.
Proof. reflexivity. Qed.

Lemma append_assoc (s1 s2 s3 : string) : (s1 +:+ s2) +:+ s3 = s1 +:+ s2 +:+ s3.
Proof.
  induction s1 as [|c s1 IH]; [done|]. rewrite !append_cons. by f_equal.
Qed.

Lemma append_nil_r (s : string) : s +:+ "" = s.
Proof. induction s as [|c s IH]; [done|]. rewrite append_cons. by f_equal. Qed.

Lemma prefix_spec (q s : string) :
  String.prefix q s = true ↔ ∃ post, s = q +:+ post.
Proof.
  revert s. induction q as [|a q IH]; intros s; simpl.
  - split; [by exists s | by destruct s].
  - destruct s as [|b s]; simpl.
    + split; [done | by intros [post ?]].
    + destruct (Ascii.ascii_dec a b) as [->|Hne].
      * rewrite IH. split; intros [post Hp]; exists post.
        -- by rewrite append_cons, Hp.
        -- rewrite append_cons in Hp. congruence.
      * split; [done | intros [post Hp]; rewrite append_cons in Hp; congruence].
Qed.

Lemma includes_spec (s q : string) :
  Js.includes s q = true ↔ substring_of q s.
Proof.
  unfold substring_of. induction s as [|c s IH]; cbn [Js.includes].
  - rewrite orb_false_r, prefix_spec. split.
    + intros [post Hp]. by exists "", post.
    + intros ([|a pre] & post & Hp); [by exists post | done].
  - rewrite orb_true_iff, IH, prefix_spec. split.
    + intros [[post Hp] | (pre & post & Hp)].
      * by exists "", post.
      * exists (String c pre), post. by rewrite append_cons, Hp.
    + intros ([|a pre] & post & Hp).
      * left. by exists post.
      * right. exists pre, post. rewrite append_cons in Hp. congruence.
Qed.

Lemma eqb_empty (s : string) : String.eqb s "" = true ↔ s = "".
Proof. apply String.eqb_eq. Qed.

Lemma or_empty (o : option string) : Js.or o "" = default "" o.
Proof.
  destruct o as [s|]; simpl; [|done].
  unfold Js.truthy. by destruct s.
Qed.

Lemma or_unknown (c : Card) : Js.or (repoLanguage c) "unknown" = category c.
Proof.
  unfold category. destruct (repoLanguage c) as [s|]; simpl; [|done].
  unfold Js.truthy. destruct s; by simpl.
Qed.

Lemma searchableText_joined (c : Card) :
  searchableText c = Js.toLowerCase (joined c).
Proof. unfold searchableText, joined. by rewrite !or_empty. Qed.

(** ** The selected set *)

Lemma size_zero (S : gset string) : size S = 0 ↔ S = ∅.
Proof. rewrite size_empty_iff. apply leibniz_equiv_iff. Qed.

Lemma hasLanguageFilter_false (S : gset string) : (0 <? size S) = false ↔ S = ∅.
Proof. rewrite <- size_zero, Nat.ltb_ge. lia. Qed.

(** ** The card pass *)

Lemma queryMatches_spec (q : string) (c : Card) :
  queryMatches q c = true ↔ query_matches q c.
Proof.
  unfold queryMatches, query_matches.
  by rewrite orb_true_iff, eqb_empty, includes_spec, searchableText_joined.
Qed.

Lemma languageMatches_spec (S : gset string) (c : Card) :
  languageMatches S c = true ↔ language_matches S c.
Proof.
  unfold languageMatches, language_matches, cardLanguage.
  rewrite orb_true_iff, negb_true_iff, hasLanguageFilter_false, or_unknown.
  by rewrite bool_decide_eq_true.
Qed.

Lemma isVisible_spec (q : string) (S : gset string) (c : Card) :
  isVisible q S c = true ↔ query_matches q c ∧ language_matches S c.
Proof.
  unfold isVisible.
  by rewrite andb_true_iff, queryMatches_spec, languageMatches_spec.
Qed.

(** The loop writes each card's flag from the predicate and nothing else. *)
Lemma filterCards_cards (q : string) (S : gset string) (cs : list Card) (n : nat) :
  (filterCards q S cs n).1
  = map (λ c, set_card_hidden (negb (isVisible q S c)) c) cs.
Proof.
  revert n. induction cs as [|c cs IH]; intros n; simpl; [done|].
  specialize (IH (if isVisible q S c then n + 1 else n)).
  destruct (filterCards q S cs _) as [rest m]. simpl in *. by rewrite IH.
Qed.

(** The counter is the number of cards left shown. *)
Lemma filterCards_count (q : string) (S : gset string) (cs : list Card) (n : nat) :
  (filterCards q S cs n).2
  = n + length (filter (λ c, card_hidden c = false) (filterCards q S cs n).1).
Proof.
  revert n. induction cs as [|c cs IH]; intros n; simpl; [lia|].
  specialize (IH (if isVisible q S c then n + 1 else n)).
  destruct (filterCards q S cs _) as [rest m]. simpl in *. rewrite IH.
  rewrite filter_cons. simpl.
  destruct (isVisible q S c); simpl; lia.
Qed.

Lemma applyFilter_cards (tc : nat) (v : string) (p : Page) :
  cards (applyFilter tc v p)
  = (filterCards (queryOf v) (selectedLanguages (languageFilters p)) (cards p) 0).1.
Proof. unfold applyFilter. by destruct (filterCards _ _ _ _). Qed.

Lemma applyFilter_languageFilters (tc : nat) (v : string) (p : Page) :
  languageFilters (applyFilter tc v p) = languageFilters p.
Proof. unfold applyFilter. by destruct (filterCards _ _ _ _). Qed.

(** C1. After a recomputation with query [q] and selected set [S], a card is
    shown exactly when ([q] is empty or occurs in the lower-cased
    "name category description") and ([S] is empty or holds the card's
    lower-cased category, ["unknown"] standing for a missing one). *)
Theorem applyFilter_card_visible (tc : nat) (v : string) (p : Page) (i : nat) (c : Card) :
  cards p !! i = Some c →
  ∃ c', cards (applyFilter tc v p) !! i = Some c'
        ∧ same_card c c'
        ∧ (card_hidden c' = false
           ↔ query_matches (queryOf v) c
             ∧ language_matches (selectedLanguages (languageFilters p)) c).
Proof.
  intros Hc. rewrite applyFilter_cards, filterCards_cards.
  eexists. split; [by rewrite list_lookup_fmap, Hc|].
  split; [done|]. simpl. by rewrite negb_false_iff, isVisible_spec.
Qed.

Lemma applyFilter_card_visible_witness :
  ∃ c', cards (applyFilter 2 "CLI " demo) !! 0 = Some c'
        ∧ same_card alpha c'
        ∧ (card_hidden c' = false
           ↔ query_matches (queryOf "CLI ") alpha
             ∧ language_matches (selectedLanguages (languageFilters demo)) alpha).
Proof. apply (applyFilter_card_visible 2 "CLI " demo 0 alpha). reflexivity. Defined.

(** ** The recomputation as a whole *)

Lemma shown_is_shown (cs : list Card) (i : nat) :
  shown cs i = true ↔ is_shown cs i.
Proof.
  unfold shown, is_shown. destruct (cs !! i) as [c|].
  - rewrite negb_true_iff. split; [by exists c | by intros (? & [= <-] & ?)].
  - split; [done | by intros (? & ? & ?)].
Qed.

Lemma shownMembers_filter (cs : list Card) (s : Section) :
  shownMembers cs s = filter (is_shown cs) (members s).
Proof.
  unfold shownMembers. apply list_filter_iff. intros i.
  rewrite <- shown_is_shown. by destruct (shown cs i).
Qed.

Lemma shownMembers_not_nil (cs : list Card) (s : Section) :
  shownMembers cs s ≠ [] ↔ has_shown_card cs s.
Proof.
  rewrite shownMembers_filter. unfold has_shown_card. split.
  - destruct (filter (is_shown cs) (members s)) as [|i l] eqn:Hf; [done|].
    intros _. exists i.
    assert (i ∈ filter (is_shown cs) (members s)) as Hin by (rewrite Hf; left).
    apply list_elem_of_filter in Hin. tauto.
  - intros (i & Hi & Hs) Hnil.
    assert (i ∈ filter (is_shown cs) (members s)) as Hin
      by by apply list_elem_of_filter.
    rewrite Hnil in Hin. by apply not_elem_of_nil in Hin.
Qed.

(** The recomputation in closed form: the counter is replaced by the count
    of the cards it leaves shown. *)
Lemma applyFilter_eq (tc : nat) (v : string) (p : Page) :
  let q := queryOf v in
  let S := selectedLanguages (languageFilters p) in
  let isFiltering := negb (String.eqb q "") || (0 <? size S) in
  let cs := map (λ c, set_card_hidden (negb (isVisible q S c)) c) (cards p) in
  applyFilter tc v p
  = {| cards := cs;
       sections := map (countSection cs) (map (filterSection isFiltering cs) (sections p));
       emptyState :=
         (λ _, negb isFiltering || (0 <? visible_count cs)) <$> emptyState p;
       totalCountLabel :=
         (λ _, global_summary (visible_count cs) tc) <$> totalCountLabel p;
       languageFilters := languageFilters p |}.
Proof.
  intros q S isFiltering cs. unfold applyFilter.
  pose proof (filterCards_cards q S (cards p) 0) as Hc.
  pose proof (filterCards_count q S (cards p) 0) as Hn.
  fold q S in Hc, Hn |- *.
  destruct (filterCards q S (cards p) 0) as [cs' n]. simpl in Hc, Hn.
  subst cs'. fold cs in Hn |- *. unfold visible_count. by rewrite Hn.
Qed.

Lemma isFiltering_spec (q : string) (S : gset string) :
  negb (String.eqb q "") || (0 <? size S) = true ↔ filtering q S.
Proof.
  unfold filtering.
  rewrite orb_true_iff, negb_true_iff, <- not_true_iff_false, eqb_empty.
  rewrite Nat.ltb_lt, <- size_zero. split; (intros [?|?]; [by left | right; lia]).
Qed.

Lemma not_filtering (q : string) (S : gset string) :
  ¬ filtering q S ↔ q = "" ∧ S = ∅.
Proof.
  unfold filtering. split.
  - intros H. split.
    + destruct (decide (q = "")); [done | exfalso; eauto].
    + destruct (decide (S = ∅)); [done | exfalso; eauto].
  - intros [-> ->] [?|?]; done.
Qed.
Lemma filterSection_members (f : bool) (cs : list Card) (s : Section) :
  members (filterSection f cs s) = members s.
Proof. unfold filterSection. by destruct f. Qed.

Lemma filterSection_sectionCount (f : bool) (cs : list Card) (s : Section) :
  sectionCount (filterSection f cs s) = sectionCount s.
Proof. unfold filterSection. by destruct f. Qed.

Lemma countSection_members (cs : list Card) (s : Section) :
  members (countSection cs s) = members s.
Proof. unfold countSection. by destruct (sectionCount s). Qed.

Lemma countSection_hidden (cs : list Card) (s : Section) :
  section_hidden (countSection cs s) = section_hidden s.
Proof. unfold countSection. by destruct (sectionCount s). Qed.

Lemma has_shown_card_members (cs : list Card) (s s' : Section) :
  members s' = members s → has_shown_card cs s' ↔ has_shown_card cs s.
Proof. unfold has_shown_card. by intros ->. Qed.

Lemma filterSection_strays (f : bool) (cs : list Card) (s : Section) :
  strays (filterSection f cs s) = strays s.
Proof. unfold filterSection. by destruct f. Qed.

Lemma countSection_strays (cs : list Card) (s : Section) :
  strays (countSection cs s) = strays s.
Proof. unfold countSection. by destruct (sectionCount s). Qed.

Lemma shownStrays_not_nil (s : Section) : shownStrays s ≠ [] ↔ has_shown_stray s.
Proof.
  unfold shownStrays, has_shown_stray. split.
  - destruct (filter _ (strays s)) as [|h l] eqn:Hf; [done|]. intros _.
    assert (h ∈ filter (λ h, h = false) (strays s)) as Hin by (rewrite Hf; left).
    apply list_elem_of_filter in Hin as [-> Hin]. done.
  - intros Hin Hnil.
    assert (false ∈ filter (λ h, h = false) (strays s)) as Hin'
      by by apply list_elem_of_filter.
    rewrite Hnil in Hin'. by apply not_elem_of_nil in Hin'.
Qed.

Lemma visibleRepoCards_count (cs : list Card) (s : Section) :
  visibleRepoCards cs s = section_repo_cards cs s.
Proof.
  unfold visibleRepoCards, section_repo_cards, section_visible, shownStrays.
  by rewrite shownMembers_filter.
Qed.

(** Where every [.repo-card] element of a section is in the collection, the
    elements counted are the section's cards that are shown. *)
Lemma section_repo_cards_no_strays (cs : list Card) (s : Section) :
  strays s = [] → section_repo_cards cs s = section_visible cs s.
Proof. unfold section_repo_cards. intros ->. simpl. lia. Qed.

Lemma visibleRepoCards_some (cs : list Card) (s : Section) :
  (visibleRepoCards cs s =? 0) = false ↔ has_shown_card cs s ∨ has_shown_stray s.
Proof.
  rewrite Nat.eqb_neq, <- shownMembers_not_nil, <- shownStrays_not_nil.
  unfold visibleRepoCards.
  destruct (shownMembers cs s), (shownStrays s); simpl; split;
    try done; try lia; try (intros [?|?]; done); eauto.
Qed.

Lemma filterSection_hidden (f : bool) (cs : list Card) (s : Section) :
  section_hidden (filterSection f cs s) = false
  ↔ f = false ∨ has_shown_card cs s ∨ has_shown_stray s.
Proof.
  unfold filterSection. destruct f; simpl.
  - rewrite negb_involutive, visibleRepoCards_some.
    split; [by right | by intros [?|?]].
  - split; [by left | done].
Qed.

Lemma applyFilter_sections (tc : nat) (v : string) (p : Page) :
  sections (applyFilter tc v p)
  = map (countSection (cards (applyFilter tc v p)))
      (map (filterSection
              (negb (String.eqb (queryOf v) "")
               || (0 <? size (selectedLanguages (languageFilters p))))
              (cards (applyFilter tc v p)))
         (sections p)).
Proof. by rewrite applyFilter_eq. Qed.



Lemma nameless_none_shown (s : Section) :
  members s = [0] → ¬ has_shown_card (cards (applyFilter 1 "zzz" nameless)) s.
Proof.
  intros Hm (i & Hi & c & Hc & Hh). rewrite Hm in Hi.
  apply elem_of_cons in Hi as [->|Hi]; [|by apply not_elem_of_nil in Hi].
  by injection Hc as <-.
Qed.


(** C6. The "no results" element, when there is one, is shown exactly when
    a filter is active and no card at all is shown. *)
Theorem applyFilter_emptyState_visible (tc : nat) (v : string) (p : Page) (h : bool) :
  emptyState p = Some h →
  ∃ h', emptyState (applyFilter tc v p) = Some h'
        ∧ (h' = false
           ↔ filtering (queryOf v) (selectedLanguages (languageFilters p))
             ∧ visible_count (cards (applyFilter tc v p)) = 0).
Proof.
  intros Hh. rewrite applyFilter_eq. simpl. rewrite Hh. simpl.
  eexists. split; [done|].
  rewrite orb_false_iff, negb_false_iff, isFiltering_spec, Nat.ltb_ge.
  split; (intros [? ?]; split; [done | lia]).
Qed.

Lemma applyFilter_emptyState_visible_witness :
  ∃ h', emptyState (applyFilter 2 "zzz" demo) = Some h'
        ∧ (h' = false
           ↔ filtering (queryOf "zzz") (selectedLanguages (languageFilters demo))
             ∧ visible_count (cards (applyFilter 2 "zzz" demo)) = 0).
Proof. apply (applyFilter_emptyState_visible 2 "zzz" demo true). reflexivity. Defined.
(** ** Buttons *)

Lemma map_fmap {A B : Type} (f : A → B) (l : list A) : map f l = f <$> l.
Proof. reflexivity. Qed.

Lemma or_some_empty (s : string) : Js.or (Some s) "" = s.
Proof. by rewrite or_empty. Qed.

Lemma isAll_spec (b : Button) : isAll b = true ↔ language b = "".
Proof. unfold isAll. by rewrite or_some_empty, eqb_empty. Qed.

Lemma truthy_spec (s : string) : Js.truthy s = true ↔ s ≠ "".
Proof.
  unfold Js.truthy. by rewrite negb_true_iff, <- not_true_iff_false, eqb_empty.
Qed.

Lemma selecting_spec (b : Button) :
  selecting b = true ↔ language b ≠ "" ∧ pressed b = true.
Proof. unfold selecting. by rewrite andb_true_iff, truthy_spec. Qed.

Lemma selecting_all (b : Button) : language b = "" → selecting b = false.
Proof. unfold selecting. by intros ->. Qed.

Lemma pressed_setButtonPressed (x : bool) (b : Button) :
  pressed (setButtonPressed x b) = x.
Proof. by destruct x. Qed.

Lemma toLowerCase_empty (s : string) : Js.toLowerCase s = "" ↔ s = "".
Proof. by destruct s. Qed.

Lemma elem_of_selectedLanguages (l : string) (bs : list Button) :
  l ∈ selectedLanguages bs ↔ ∃ b, b ∈ bs ∧ selecting b = true ∧ language b = l.
Proof.
  unfold selectedLanguages.
  rewrite elem_of_list_to_set, map_fmap, list_elem_of_fmap. split.
  - intros (b & -> & Hb). apply list_elem_of_filter in Hb as [Hs Hb].
    exists b. rewrite or_some_empty. split_and!; [done | | done].
    by destruct (selecting b).
  - intros (b & Hb & Hs & <-). exists b. rewrite or_some_empty.
    split; [done|]. apply list_elem_of_filter. by rewrite Hs.
Qed.

Lemma selectedLanguages_empty (bs : list Button) :
  selectedLanguages bs = ∅ ↔ ∀ b, b ∈ bs → selecting b = false.
Proof.
  split.
  - intros He b Hb. destruct (selecting b) eqn:Hs; [|done].
    assert (language b ∈ selectedLanguages bs) as Hin
      by (apply elem_of_selectedLanguages; eauto).
    rewrite He in Hin. by apply not_elem_of_empty in Hin.
  - intros Hno. apply set_eq. intros l. rewrite elem_of_selectedLanguages.
    split; [|by intros ?%not_elem_of_empty].
    intros (b & Hb & Hs & _). rewrite (Hno b Hb) in Hs. done.
Qed.

(** A write to one element commutes with a loop over all of them when the
    two bodies commute on that element. *)
Lemma fmap_alter_at {A B : Type} (f : A → B) (g : A → A) (h : B → B)
    (a : nat) (l : list A) :
  (∀ x, l !! a = Some x → f (g x) = h (f x)) →
  f <$> alter g a l = alter h a (f <$> l).
Proof.
  intros Hc. apply list_eq. intros j.
  rewrite list_lookup_fmap, !list_lookup_alter, !list_lookup_fmap.
  destruct (decide (a = j)) as [->|]; [|done].
  destruct (l !! j) as [x|] eqn:Hx; [|done]. simpl. f_equal. by apply Hc.
Qed.

Lemma alter_twice {A : Type} (f : A → A) (a : nat) (l : list A) :
  (∀ x, f (f x) = f x) → alter f a (alter f a l) = alter f a l.
Proof.
  intros Hf. rewrite list_alter_alter. destruct (decide (a = a)); [|done].
  apply list_alter_ext; [intros x _; apply Hf | done].
Qed.

(** The selected set ignores what is written to an "all" button. *)
Lemma selecting_filter_alter_all (f : Button → Button) (a : nat) (bs : list Button) :
  (∀ b, bs !! a = Some b → language b = "") →
  (∀ b, language (f b) = language b) →
  filter (λ b, selecting b) (alter f a bs) = filter (λ b, selecting b) bs.
Proof.
  revert a. induction bs as [|b bs IH]; intros a Ha Hf; [done|].
  destruct a as [|a].
  - change (alter f 0 (b :: bs)) with (f b :: bs). rewrite !filter_cons.
    rewrite (selecting_all b), (selecting_all (f b)); [done | | by apply Ha].
    rewrite Hf. by apply Ha.
  - change (alter f (S a) (b :: bs)) with (b :: alter f a bs).
    rewrite !filter_cons. rewrite (IH a); [done | | done].
    intros b' Hb'. by apply (Ha b').
Qed.

Lemma selectedLanguages_alter_all (f : Button → Button) (a : nat) (bs : list Button) :
  (∀ b, bs !! a = Some b → language b = "") →
  (∀ b, language (f b) = language b) →
  selectedLanguages (alter f a bs) = selectedLanguages bs.
Proof.
  intros Ha Hf. unfold selectedLanguages.
  by rewrite selecting_filter_alter_all.
Qed.

(** The "all" button is found by the [data-language] values alone. *)
Lemma allButton_languages (bs : list Button) :
  allButton bs = fst <$> list_find (λ l, l = "") (language <$> bs).
Proof.
  unfold allButton. induction bs as [|b bs IH]; [done|].
  rewrite fmap_cons. cbn [list_find].
  pose proof (isAll_spec b) as Hb.
  repeat case_decide.
  - done.
  - exfalso. destruct (isAll b); [tauto | done].
  - exfalso. destruct (isAll b); [done | by apply Hb in H0].
  - destruct (list_find _ bs) as [[? ?]|],
      (list_find _ (language <$> bs)) as [[? ?]|]; simpl in *; congruence.
Qed.

Lemma allButton_same_languages (bs bs' : list Button) :
  language <$> bs' = language <$> bs → allButton bs' = allButton bs.
Proof. intros H. by rewrite !allButton_languages, H. Qed.

Lemma allButton_Some (bs : list Button) (a : nat) :
  allButton bs = Some a → ∃ b, bs !! a = Some b ∧ language b = "".
Proof.
  unfold allButton. destruct (list_find _ bs) as [[i b]|] eqn:Hf; [|done].
  intros [= <-]. apply list_find_Some in Hf as (Hb & Hall & _).
  exists b. split; [done|]. apply isAll_spec. by destruct (isAll b).
Qed.

Lemma allButton_at (bs : list Button) (a : nat) (b : Button) :
  allButton bs = Some a → bs !! a = Some b → language b = "".
Proof. intros (b' & Hb' & ?)%allButton_Some Hb. congruence. Qed.

Lemma languages_alter (f : Button → Button) (a : nat) (bs : list Button) :
  (∀ b, language (f b) = language b) →
  language <$> alter f a bs = language <$> bs.
Proof.
  intros Hf. rewrite (fmap_alter_at language f id); [by rewrite list_alter_id|].
  intros x _. apply Hf.
Qed.

Lemma languages_fmap (f : Button → Button) (bs : list Button) :
  (∀ b, language (f b) = language b) →
  language <$> (f <$> bs) = language <$> bs.
Proof.
  intros Hf. rewrite <- list_fmap_compose. apply list_fmap_ext.
  intros i b _. apply Hf.
Qed.

(** ** The availability pass *)

Lemma availability_language (av : gset string) (b : Button) :
  language (availability av b) = language b.
Proof.
  unfold availability. destruct (String.eqb _ ""); [done|].
  by destruct (bool_decide _).
Qed.

Lemma availability_idem (av : gset string) (b : Button) :
  availability av (availability av b) = availability av b.
Proof.
  unfold availability at 2.
  destruct (String.eqb _ "") eqn:He.
  - unfold availability. cbn [language set_button_hidden]. by rewrite He.
  - destruct (bool_decide _) eqn:Hd; unfold availability;
      cbn [language set_button_hidden setButtonPressed negb];
      by rewrite He, Hd.
Qed.

Lemma availability_all (av : gset string) (x : bool) (b : Button) :
  language b = "" →
  availability av (setButtonPressed x b) = setButtonPressed x (availability av b).
Proof.
  intros Hb. unfold availability. cbn [language setButtonPressed].
  by rewrite Hb.
Qed.

Lemma availabilityButtons_idem (cs : list Card) (bs : list Button) :
  availabilityButtons cs (availabilityButtons cs bs) = availabilityButtons cs bs.
Proof.
  unfold availabilityButtons at 2 3.
  set (av := availableLanguages cs).
  set (bs1 := map (availability av) bs).
  assert (map (availability av) bs1 = bs1) as Hmap.
  { unfold bs1. rewrite !map_fmap, <- list_fmap_compose.
    apply list_fmap_ext. intros i b _. apply availability_idem. }
  assert (allButton bs1 = allButton bs) as Hall.
  { apply allButton_same_languages, languages_fmap, availability_language. }
  destruct (allButton bs) as [a|] eqn:Ha.
  - destruct (size (selectedLanguages bs1) =? 0) eqn:Hz.
    + assert (∀ b, bs1 !! a = Some b → language b = "") as Hlang
        by (intros b; by apply allButton_at).
      unfold availabilityButtons. fold av.
      rewrite (allButton_same_languages bs1), Hall
        by by apply languages_alter.
      rewrite !map_fmap, (fmap_alter_at _ _ (setButtonPressed true))
        by (intros x Hx; apply availability_all; by apply Hlang).
      rewrite <- map_fmap, Hmap.
      rewrite selectedLanguages_alter_all, Hz by done.
      by apply alter_twice.
    + unfold availabilityButtons. fold av. by rewrite Hmap, Hall, Hz.
  - unfold availabilityButtons. fold av. by rewrite Hmap, Hall.
Qed.

Lemma applyLanguageAvailability_idem (p : Page) :
  applyLanguageAvailability (applyLanguageAvailability p)
  = applyLanguageAvailability p.
Proof.
  unfold applyLanguageAvailability. simpl. by rewrite availabilityButtons_idem.
Qed.

(** ** Running the recomputation again *)

Lemma isVisible_set_card_hidden (q : string) (S : gset string) (h : bool) (c : Card) :
  isVisible q S (set_card_hidden h c) = isVisible q S c.
Proof. reflexivity. Qed.

Lemma filterSection_countSection_idem (f : bool) (cs : list Card) (s : Section) :
  countSection cs (filterSection f cs (countSection cs (filterSection f cs s)))
  = countSection cs (filterSection f cs s).
Proof.
  destruct s as [ms st h [sc|]]; by destruct f.
Qed.

Lemma applyFilter_idem (tc : nat) (v : string) (p : Page) :
  applyFilter tc v (applyFilter tc v p) = applyFilter tc v p.
Proof.
  rewrite (applyFilter_eq tc v (applyFilter tc v p)).
  rewrite applyFilter_languageFilters.
  rewrite (applyFilter_eq tc v p). cbn [cards sections emptyState totalCountLabel].
  set (q := queryOf v). set (S := selectedLanguages (languageFilters p)).
  set (f := λ c, set_card_hidden (negb (isVisible q S c)) c).
  assert (map f (map f (cards p)) = map f (cards p)) as Hcs.
  { rewrite !map_fmap, <- list_fmap_compose. by apply list_fmap_ext. }
  rewrite Hcs. f_equal.
  - rewrite !map_fmap, <- !list_fmap_compose. apply list_fmap_ext.
    intros i s _. apply filterSection_countSection_idem.
  - by destruct (emptyState p).
  - by destruct (totalCountLabel p).
Qed.

(** C8. Running the recomputation a second time on the same query and
    buttons, or the availability pass a second time, changes nothing: the
    pages are equal, hence every card, section and button flag is. *)
Theorem recomputation_idempotent (tc : nat) (v : string) (p : Page) :
  applyFilter tc v (applyFilter tc v p) = applyFilter tc v p
  ∧ applyLanguageAvailability (applyLanguageAvailability p)
    = applyLanguageAvailability p.
Proof. split; [apply applyFilter_idem | apply applyLanguageAvailability_idem]. Qed.

(** ** The click listener against the toggle state machine *)

Lemma elem_of_pressedSpecific (bs : list Button) (j : nat) :
  j ∈ pressedSpecific bs ↔ ∃ b, bs !! j = Some b ∧ selecting b = true.
Proof.
  unfold pressedSpecific.
  rewrite elem_of_list_to_set, list_elem_of_filter, elem_of_seq.
  unfold selectingAt. split.
  - intros [Hs _]. destruct (bs !! j) as [b|]; [|done].
    exists b. split; [done|]. by destruct (selecting b).
  - intros (b & Hb & Hs). rewrite Hb, Hs. split; [done|].
    apply lookup_lt_Some in Hb. lia.
Qed.

Lemma pressedSpecific_empty (bs : list Button) :
  pressedSpecific bs = ∅ ↔ selectedLanguages bs = ∅.
Proof.
  rewrite selectedLanguages_empty. split.
  - intros He b Hb. destruct (selecting b) eqn:Hs; [|done].
    apply list_elem_of_lookup in Hb as [j Hj].
    assert (j ∈ pressedSpecific bs) as Hin
      by (apply elem_of_pressedSpecific; eauto).
    rewrite He in Hin. by apply not_elem_of_empty in Hin.
  - intros Hno. apply set_eq. intros j. rewrite elem_of_pressedSpecific.
    split; [|by intros ?%not_elem_of_empty].
    intros (b & Hb & Hs). rewrite (Hno b) in Hs; [done|].
    apply list_elem_of_lookup. eauto.
Qed.

Lemma pressedSpecific_alter_all (f : Button → Button) (a : nat) (bs : list Button) :
  (∀ b, bs !! a = Some b → language b = "") →
  (∀ b, language (f b) = language b) →
  pressedSpecific (alter f a bs) = pressedSpecific bs.
Proof.
  intros Ha Hf. apply set_eq. intros j.
  rewrite !elem_of_pressedSpecific, list_lookup_alter.
  destruct (decide (a = j)) as [->|]; [|done].
  destruct (bs !! j) as [x|] eqn:Hx; simpl.
  - specialize (Ha x eq_refl). split; intros (b & [= <-] & Hs).
    + rewrite selecting_all in Hs; [done | by rewrite Hf].
    + by rewrite selecting_all in Hs.
  - split; by intros (b & ? & _).
Qed.

Lemma pressedSpecific_flip (i : nat) (b : Button) (bs : list Button) :
  bs !! i = Some b → language b ≠ "" →
  pressedSpecific (alter (λ b, setButtonPressed (negb (pressed b)) b) i bs)
  = chosen (flip i (toggle_of bs)).
Proof.
  intros Hb Hl. apply set_eq. intros j. rewrite elem_of_pressedSpecific.
  rewrite list_lookup_alter. simpl.
  assert (i ∈ pressedSpecific bs ↔ pressed b = true) as Hi.
  { rewrite elem_of_pressedSpecific. split.
    - intros (b' & Hb' & Hs). apply selecting_spec in Hs as [_ Hp]. congruence.
    - intros Hp. exists b. split; [done|]. by apply selecting_spec. }
  destruct (decide (i = j)) as [<-|Hne].
  - rewrite Hb. simpl. split.
    + intros (b' & [= <-] & Hs). apply selecting_spec in Hs as [_ Hp].
      rewrite pressed_setButtonPressed, negb_true_iff in Hp.
      destruct (decide (i ∈ pressedSpecific bs)) as [Hin|Hin].
      * apply Hi in Hin. congruence.
      * apply elem_of_union. right. by apply elem_of_singleton.
    + intros Hin. eexists. split; [done|]. apply selecting_spec.
      split; [done|]. rewrite pressed_setButtonPressed, negb_true_iff.
      destruct (decide (i ∈ pressedSpecific bs)) as [Hin'|Hin'].
      * apply elem_of_difference in Hin as [_ Hin].
        exfalso. apply Hin. by apply elem_of_singleton.
      * apply not_true_iff_false. by rewrite <- Hi.
  - rewrite <- elem_of_pressedSpecific.
    destruct (decide (i ∈ pressedSpecific bs)).
    + rewrite elem_of_difference, elem_of_singleton.
      split; [intros ?; split; [done | congruence] | by intros [? _]].
    + rewrite elem_of_union, elem_of_singleton.
      split; [by left | intros [?|?]; [done | congruence]].
Qed.

Lemma allButton_is_Some (bs : list Button) (i : nat) (b : Button) :
  bs !! i = Some b → language b = "" → is_Some (allButton bs).
Proof.
  intros Hb Hl. unfold allButton. apply fmap_is_Some.
  apply (list_find_elem_of _ _ b).
  - apply list_elem_of_lookup. eauto.
  - apply isAll_spec in Hl. by rewrite Hl.
Qed.

Lemma clickButtons_languages (i : nat) (bs : list Button) :
  language <$> clickButtons i bs = language <$> bs.
Proof.
  unfold clickButtons. destruct (bs !! i) as [b|]; [|done].
  destruct (String.eqb _ ""); [by apply languages_fmap|].
  destruct (allButton bs) as [a|].
  - destruct (negb _); by rewrite ?languages_alter.
  - by rewrite languages_alter.
Qed.

(** The listener, read through [toggle_of], is the transition of the
    specification. *)
Lemma clickButtons_toggle (i : nat) (b : Button) (bs : list Button) :
  bs !! i = Some b →
  toggle_of (clickButtons i bs) = spec_click (target_of b i) (toggle_of bs).
Proof.
  intros Hb. unfold clickButtons, target_of. rewrite Hb, or_some_empty.
  destruct (decide (language b = "")) as [Hall|Hspec].
  - rewrite (proj2 (eqb_empty _) Hall).
    set (bs' := map _ bs).
    assert (pressedSpecific bs' = ∅) as Hnone.
    { apply set_eq. intros j. rewrite elem_of_pressedSpecific.
      split; [|by intros ?%not_elem_of_empty].
      unfold bs'. rewrite map_fmap, list_lookup_fmap.
      intros (x & Hx & Hs). destruct (bs !! j) as [y|]; [|done].
      injection Hx as <-. apply selecting_spec in Hs as [Hl Hp].
      rewrite pressed_setButtonPressed in Hp. by apply isAll_spec in Hp. }
    assert (allButton bs' = allButton bs) as Hsame
      by (apply allButton_same_languages; by apply languages_fmap).
    destruct (allButton_is_Some bs i b Hb Hall) as [a Ha].
    destruct (allButton_Some bs a Ha) as (x & Hx & Hlx).
    unfold toggle_of. rewrite Hsame, Ha, Hnone. simpl.
    unfold bs'. rewrite map_fmap, list_lookup_fmap, Hx. simpl.
    rewrite pressed_setButtonPressed, (proj2 (isAll_spec x) Hlx). done.
  - rewrite (proj1 (not_true_iff_false _) (λ H, Hspec (proj1 (eqb_empty _) H))).
    set (flipB := λ b : Button, setButtonPressed (negb (pressed b)) b).
    set (bs1 := alter flipB i bs).
    assert (pressedSpecific bs1 = chosen (flip i (toggle_of bs))) as Hflip
      by by apply (pressedSpecific_flip i b).
    assert (language <$> bs1 = language <$> bs) as Hl1
      by by apply languages_alter.
    destruct (allButton bs) as [a|] eqn:Ha.
    + destruct (allButton_Some bs a Ha) as (x & Hx & Hlx).
      assert (a ≠ i) as Hai by congruence.
      assert (bs1 !! a = Some x) as Hx1
        by (unfold bs1; by rewrite list_lookup_alter_ne).
      set (bs2 := alter (setButtonPressed false) a bs1).
      assert (pressedSpecific bs2 = pressedSpecific bs1) as H21.
      { apply pressedSpecific_alter_all; [|done]. intros y Hy. congruence. }
      assert (language <$> bs2 = language <$> bs) as Hl2
        by (unfold bs2; by rewrite languages_alter).
      assert (bs2 !! a = Some (setButtonPressed false x)) as Hx2
        by (unfold bs2; by rewrite list_lookup_alter_eq, Hx1).
      unfold spec_click. cbn [chosen unpress_all].
      destruct (decide (chosen (flip i (toggle_of bs)) = ∅)) as [He|Hne].
      * assert ((0 <? size (selectedLanguages bs2)) = false) as Hz.
        { apply hasLanguageFilter_false, pressedSpecific_empty. congruence. }
        rewrite Hz. simpl. unfold toggle_of.
        rewrite (allButton_same_languages bs), Ha
          by by rewrite languages_alter.
        rewrite pressedSpecific_alter_all, H21, Hflip;
          [| intros y Hy; rewrite Hx2 in Hy; by injection Hy as <- | done].
        simpl. by rewrite list_lookup_alter_eq, Hx2, Hx.
      * assert ((0 <? size (selectedLanguages bs2)) = true) as Hz.
        { apply not_false_iff_true. rewrite hasLanguageFilter_false.
          rewrite <- pressedSpecific_empty. congruence. }
        rewrite Hz. simpl. unfold toggle_of.
        rewrite (allButton_same_languages bs), Ha by done.
        rewrite H21, Hflip. simpl. by rewrite Hx2, Hx.
    + unfold toggle_of. rewrite (allButton_same_languages bs), Ha by done.
      fold bs1. rewrite Hflip. unfold spec_click. simpl.
      destruct (decide (_ = ∅)); reflexivity.
Qed.
Lemma click_languageFilters (tc : nat) (v : string) (i : nat) (p : Page) :
  languageFilters (click tc v i p) = clickButtons i (languageFilters p).
Proof.
  unfold click. destruct (languageFilters p !! i) as [b|] eqn:Hb.
  - by rewrite applyFilter_languageFilters.
  - unfold clickButtons. by rewrite Hb.
Qed.

Lemma toggle_of_all_on (bs : list Button) :
  is_Some (allButton bs) → is_Some (all_on (toggle_of bs)).
Proof.
  intros [a Ha]. destruct (allButton_Some bs a Ha) as (x & Hx & _).
  unfold toggle_of. simpl. rewrite Ha. simpl. rewrite Hx. by eexists.
Qed.

(** C3. The click listener is the transition of the specification: read
    through [toggle_of], a click on the button at position [i] is
    [spec_click]; a click on an "all" button reaches [AllSelected] from any
    state. *)
Theorem click_refines_spec (tc : nat) (v : string) (i : nat) (b : Button) (p : Page) :
  languageFilters p !! i = Some b →
  toggle_of (languageFilters (click tc v i p))
  = spec_click (target_of b i) (toggle_of (languageFilters p))
  ∧ (language b = "" →
     toggle_of (languageFilters (click tc v i p)) = AllSelected).
Proof.
  intros Hb. rewrite click_languageFilters, (clickButtons_toggle i b) by done.
  split; [done|]. intros Hall. unfold target_of.
  destruct (decide (language b = "")); [|done].
  destruct (toggle_of_all_on (languageFilters p)) as [x Hx];
    [by apply (allButton_is_Some _ i b)|].
  destruct (toggle_of (languageFilters p)) as [ao ch]. simpl in Hx.
  by subst ao.
Qed.

Lemma click_refines_spec_witness :
  toggle_of (languageFilters (click 2 "" 2 demo))
  = spec_click (target_of (filterButton "go" false) 2)
      (toggle_of (languageFilters demo))
  ∧ (language (filterButton "go" false) = "" →
     toggle_of (languageFilters (click 2 "" 2 demo)) = AllSelected).
Proof.
  apply (click_refines_spec 2 "" 2 (filterButton "go" false) demo). reflexivity.
Defined.

(** ** The exclusivity invariant *)

Lemma all_pressed_toggle (bs : list Button) :
  all_pressed bs ↔ all_on (toggle_of bs) = Some true.
Proof.
  unfold all_pressed, toggle_of. simpl. split.
  - intros (a & b & Ha & Hb & Hp). rewrite Ha. simpl. by rewrite Hb, <- Hp.
  - destruct (allButton bs) as [a|]; [|done]. simpl.
    destruct (bs !! a) as [b|] eqn:Hb; [|done]. simpl.
    intros [= Hp]. by exists a, b.
Qed.

Lemma specific_pressed_toggle (bs : list Button) :
  specific_pressed bs ↔ chosen (toggle_of bs) ≠ ∅.
Proof.
  unfold specific_pressed, toggle_of. simpl. split.
  - intros (i & b & Hb & Hl & Hp) He.
    assert (i ∈ pressedSpecific bs) as Hin.
    { apply elem_of_pressedSpecific. exists b. split; [done|].
      by apply selecting_spec. }
    rewrite He in Hin. by apply not_elem_of_empty in Hin.
  - intros [i Hi]%set_choose_L.
    apply elem_of_pressedSpecific in Hi as (b & Hb & Hs).
    apply selecting_spec in Hs as [Hl Hp]. by exists i, b.
Qed.

Lemma exclusive_of_toggle (bs : list Button) :
  (all_on (toggle_of bs) = Some true ∧ chosen (toggle_of bs) = ∅)
  ∨ (all_on (toggle_of bs) ≠ Some true ∧ chosen (toggle_of bs) ≠ ∅) →
  exclusive bs.
Proof.
  unfold exclusive, exactly_one.
  rewrite all_pressed_toggle, specific_pressed_toggle.
  intros [[Ha Hc]|[Ha Hc]]; [left | right]; tauto.
Qed.

Lemma spec_click_exclusive (tg : Target) (t : Toggle) :
  is_Some (all_on t) →
  (all_on (spec_click tg t) = Some true ∧ chosen (spec_click tg t) = ∅)
  ∨ (all_on (spec_click tg t) ≠ Some true ∧ chosen (spec_click tg t) ≠ ∅).
Proof.
  intros [x Hx]. destruct tg as [|i]; simpl.
  - left. by rewrite Hx.
  - destruct (decide (_ = ∅)) as [He|Hne]; simpl; rewrite Hx; simpl.
    + by left.
    + by right.
Qed.

Lemma clickButtons_exclusive (i : nat) (bs : list Button) :
  is_Some (allButton bs) → i < length bs → exclusive (clickButtons i bs).
Proof.
  intros Hall Hi. destruct (lookup_lt_is_Some_2 bs i Hi) as [b Hb].
  apply exclusive_of_toggle. rewrite (clickButtons_toggle i b) by done.
  by apply spec_click_exclusive, toggle_of_all_on.
Qed.

(** C2, as the script has it.  In a group that has an "all" button, after
    a click on any button, from any state, exactly one of these holds: "all"
    is pressed and no specific button is, or some specific button is pressed
    and "all" is not. *)
Theorem click_exclusive (tc : nat) (v : string) (i : nat) (p : Page) :
  is_Some (allButton (languageFilters p)) →
  i < length (languageFilters p) →
  exclusive (languageFilters (click tc v i p)).
Proof.
  intros Hall Hi. rewrite click_languageFilters.
  by apply clickButtons_exclusive.
Qed.

Lemma click_exclusive_witness : exclusive (languageFilters (click 2 "" 1 demo)).
Proof.
  apply (click_exclusive 2 "" 1 demo).
  - by exists 0.
  - simpl. lia.
Defined.

(** C2, as stated, fails in a group without an "all" button: unpressing the
    only pressed button leaves nothing pressed. *)
Lemma click_exclusive_needs_all :
  ¬ exclusive (languageFilters (click 1 "" 0 rustOnly)).
Proof.
  rewrite click_languageFilters.
  change (clickButtons 0 (languageFilters rustOnly))
    with [filterButton "rust" false].
  unfold exclusive, exactly_one.
  intros [[[(a & b & Ha & _) _] _] | [[(i & b & Hb & _ & Hp) _] _]].
  - done.
  - destruct i as [|i]; [|done]. by injection Hb as <-.
Qed.

(** ** What every listener preserves *)

Lemma set_card_hidden_attributes (h : bool) (c : Card) :
  card_attributes (set_card_hidden h c) = card_attributes c.
Proof. reflexivity. Qed.

Lemma section_frame_recomputed (f : bool) (cs : list Card) (s : Section) :
  section_frame (countSection cs (filterSection f cs s)) = section_frame s.
Proof. destruct s as [ms st h [sc|]]; by destruct f. Qed.

Lemma applyFilter_layout (tc : nat) (v : string) (p : Page) :
  layout (applyFilter tc v p) = layout p.
Proof.
  rewrite applyFilter_eq. unfold layout. simpl. f_equal.
  - rewrite <- list_fmap_compose. by apply list_fmap_ext.
  - rewrite <- !list_fmap_compose. apply list_fmap_ext.
    intros i s _. apply section_frame_recomputed.
  - by destruct (emptyState p).
  - by destruct (totalCountLabel p).
Qed.

Lemma availabilityButtons_languages (cs : list Card) (bs : list Button) :
  language <$> availabilityButtons cs bs = language <$> bs.
Proof.
  unfold availabilityButtons.
  assert (language <$> map (availability (availableLanguages cs)) bs
          = language <$> bs) as Hm
    by apply languages_fmap, availability_language.
  destruct (allButton bs); [|done].
  destruct (_ =? 0); [|done]. by rewrite languages_alter.
Qed.

Lemma applyLanguageAvailability_layout (p : Page) :
  layout (applyLanguageAvailability p) = layout p.
Proof.
  unfold layout, applyLanguageAvailability. simpl.
  by rewrite availabilityButtons_languages.
Qed.

Lemma click_layout (tc : nat) (v : string) (i : nat) (p : Page) :
  layout (click tc v i p) = layout p.
Proof.
  unfold click. destruct (languageFilters p !! i); [|done].
  rewrite applyFilter_layout. unfold layout. simpl.
  by rewrite clickButtons_languages.
Qed.

Lemma main_layout (input : option string) (p : Page) :
  layout (main input p) = layout p.
Proof.
  destruct input as [v|]; [|done]. simpl.
  by rewrite applyFilter_layout, applyLanguageAvailability_layout.
Qed.

Lemma handle_layout (k : Controller) (e : Event) :
  layout (page (handle k e)) = layout (page k).
Proof. destruct e; simpl; [apply applyFilter_layout | apply click_layout]. Qed.

Lemma handle_totalCount (k : Controller) (e : Event) :
  totalCount (handle k e) = totalCount k.
Proof. by destruct e. Qed.

Lemma run_snoc (k : Controller) (events : list Event) (e : Event) :
  run k (events ++ [e]) = handle (run k events) e.
Proof. unfold run. by rewrite foldl_app. Qed.

Lemma run_layout (v : string) (p : Page) (events : list Event) :
  layout (page (run (start v p) events)) = layout p.
Proof.
  induction events as [|e events IH] using rev_ind.
  - apply (main_layout (Some v)).
  - by rewrite run_snoc, handle_layout.
Qed.

Lemma run_totalCount (v : string) (p : Page) (events : list Event) :
  totalCount (run (start v p) events) = length (cards p).
Proof.
  induction events as [|e events IH] using rev_ind; [done|].
  by rewrite run_snoc, handle_totalCount.
Qed.

(** ** The summaries *)

Lemma section_visible_shownMembers (cs : list Card) (s : Section) :
  length (shownMembers cs s) = section_visible cs s.
Proof. by rewrite shownMembers_filter. Qed.

Lemma recomputed_summary (f : bool) (cs : list Card) (s : Section) (sc : SectionCount) :
  sectionCount (countSection cs (filterSection f cs s)) = Some sc →
  count_text sc
  = section_summary (section_repo_cards cs (countSection cs (filterSection f cs s)))
      (section_total sc).
Proof.
  rewrite <- visibleRepoCards_count.
  destruct s as [ms st h [sc0|]], f; cbn; intros [= <-]; reflexivity.
Qed.

Lemma applyFilter_summaries (tc : nat) (v : string) (p : Page) :
  summaries tc (applyFilter tc v p).
Proof.
  rewrite applyFilter_eq. split; simpl.
  - intros t Ht. destruct (totalCountLabel p); [|done]. by injection Ht as <-.
  - intros j s sc Hs. apply list_lookup_fmap_Some in Hs as (s1 & -> & Hs).
    apply list_lookup_fmap_Some in Hs as (s0 & -> & _).
    apply recomputed_summary.
Qed.

Lemma click_summaries (tc : nat) (v : string) (i : nat) (p : Page) :
  summaries tc p → summaries tc (click tc v i p).
Proof.
  intros Hp. unfold click. destruct (languageFilters p !! i); [|done].
  apply applyFilter_summaries.
Qed.

Lemma run_summaries (v : string) (p : Page) (events : list Event) :
  summaries (length (cards p)) (page (run (start v p) events)).
Proof.
  induction events as [|e events IH] using rev_ind.
  - apply applyFilter_summaries.
  - rewrite run_snoc. destruct e as [text|i]; simpl.
    + rewrite run_totalCount. apply applyFilter_summaries.
    + rewrite run_totalCount. by apply click_summaries.
Qed.



(** ** The sentinel for a missing category *)

Lemma toLowerCase_app (a b : string) :
  Js.toLowerCase (a +:+ b) = Js.toLowerCase a +:+ Js.toLowerCase b.
Proof.
  induction a as [|x a IH]; [done|].
  rewrite append_cons. simpl. by rewrite IH, append_cons.
Qed.

Lemma prefix_sep_head (c : ascii) (q r : string) :
  has_char c q = false → String.prefix q (String c r) = String.prefix q "".
Proof.
  destruct q as [|x q]; [done|]. simpl.
  intros [Hx _]%orb_false_iff. apply Ascii.eqb_neq in Hx.
  by destruct (Ascii.ascii_dec x c).
Qed.

Lemma prefix_app_sep (c : ascii) (q a r : string) :
  has_char c q = false →
  String.prefix q (a +:+ String c r) = String.prefix q a.
Proof.
  revert q. induction a as [|y a IH]; intros q Hq.
  - by apply prefix_sep_head.
  - rewrite append_cons. destruct q as [|x q]; [done|]. simpl.
    simpl in Hq. apply orb_false_iff in Hq as [_ Hq].
    destruct (Ascii.ascii_dec x y); [by apply IH | done].
Qed.

(** A text that does not contain the separator lies on one side of it. *)
Lemma includes_sep (c : ascii) (q a r : string) :
  has_char c q = false →
  Js.includes (a +:+ String c r) q = Js.includes a q || Js.includes r q.
Proof.
  intros Hq. induction a as [|y a IH].
  - rewrite append_nil_l. cbn [Js.includes].
    by rewrite prefix_sep_head, orb_false_r.
  - rewrite append_cons. cbn [Js.includes].
    rewrite IH, <- append_cons, prefix_app_sep by done.
    by rewrite orb_assoc.
Qed.

Lemma includes_sep_head (c : ascii) (q r : string) :
  has_char c q = false →
  Js.includes (String c r) q = Js.includes "" q || Js.includes r q.
Proof. apply (includes_sep c q ""). Qed.

Lemma uncategorised_text (c : Card) :
  uncategorised c →
  searchableText c
  = Js.toLowerCase (repoName c) +:+ String " " (String " "
      (Js.toLowerCase (default "" (repoDescription c)))).
Proof.
  intros Hc. rewrite searchableText_joined. unfold joined.
  assert (default "" (repoLanguage c) = "") as -> by by destruct Hc as [->| ->].
  by rewrite toLowerCase_app.
Qed.

Lemma uncategorised_category (c : Card) : uncategorised c → category c = "unknown".
Proof. unfold category. by intros [->| ->]. Qed.

(** C10, as the script has it.  For a card without a category the searchable
    text is built from the empty string, so the query "unknown" matches it
    only through its name or its description, never through the sentinel;
    the language filter value "unknown" does match it. *)
Theorem unknown_sentinel_only_for_languages (c : Card) :
  uncategorised c →
  searchableText c
  = Js.toLowerCase (repoName c +:+ " " +:+ "" +:+ " "
                      +:+ default "" (repoDescription c))
  ∧ (isVisible "unknown" ∅ c = true
     ↔ substring_of "unknown" (Js.toLowerCase (repoName c))
       ∨ substring_of "unknown" (Js.toLowerCase (default "" (repoDescription c))))
  ∧ isVisible "" {["unknown"]} c = true.
Proof.
  intros Hc. split_and!.
  - rewrite uncategorised_text by done. by rewrite toLowerCase_app.
  - unfold isVisible, queryMatches.
    rewrite (proj2 (languageMatches_spec ∅ c)) by by left.
    rewrite andb_true_r, uncategorised_text by done. simpl.
    rewrite (includes_sep " " "unknown"), (includes_sep_head " " "unknown") by done.
    change (Js.includes "" "unknown") with false.
    by rewrite orb_false_l, orb_true_iff, !includes_spec.
  - apply isVisible_spec. split; [by left|]. right.
    rewrite uncategorised_category by done. by apply elem_of_singleton.
Qed.

Lemma unknown_sentinel_only_for_languages_witness :
  searchableText gamma
  = Js.toLowerCase (repoName gamma +:+ " " +:+ "" +:+ " "
                      +:+ default "" (repoDescription gamma))
  ∧ (isVisible "unknown" ∅ gamma = true
     ↔ substring_of "unknown" (Js.toLowerCase (repoName gamma))
       ∨ substring_of "unknown"
           (Js.toLowerCase (default "" (repoDescription gamma))))
  ∧ isVisible "" {["unknown"]} gamma = true.
Proof. apply (unknown_sentinel_only_for_languages gamma). by left. Defined.

(** C10, as stated, fails for a card whose own name contains the word: the
    query "unknown" matches it although it has no category. *)
Lemma unknown_in_name_matches :
  uncategorised unknownTool
  ∧ queryMatches (queryOf "unknown") unknownTool = true
  ∧ card_hidden <$> cards (applyFilter 1 "unknown"
      {| cards := [unknownTool]; sections := []; emptyState := None;
         totalCountLabel := None; languageFilters := [] |}) = [false].
Proof. split_and!; [by left | reflexivity | reflexivity]. Qed.

(** ** Buttons without cards *)

Lemma unavailable_spec (cs : list Card) (l : string) :
  unavailable cs l ↔ l ≠ "" ∧ Js.toLowerCase l ∉ availableLanguages cs.
Proof.
  unfold unavailable, availableLanguages.
  rewrite not_elem_of_list_to_set. split; intros [Hl Hno]; (split; [done|]).
  - intros (c & Hc & Hin)%list_elem_of_fmap.
    apply (Hno c Hin). unfold cardLanguage in Hc. by rewrite or_unknown in Hc.
  - intros c Hc Heq. apply Hno. apply list_elem_of_fmap. exists c.
    split; [|done]. unfold cardLanguage. by rewrite or_unknown.
Qed.

Lemma availability_inert (cs : list Card) (b : Button) :
  unavailable cs (language b) →
  button_hidden (availability (availableLanguages cs) b) = true
  ∧ pressed (availability (availableLanguages cs) b) = false.
Proof.
  intros [Hl Hno]%unavailable_spec. unfold availability.
  rewrite or_some_empty.
  destruct (String.eqb _ "") eqn:He.
  - apply eqb_empty in He. apply (proj1 (toLowerCase_empty _)) in He. done.
  - by rewrite bool_decide_eq_false_2.
Qed.

Lemma inert_alter (cs : list Card) (f : Button → Button) (k : nat) (bs : list Button) :
  inert cs bs →
  (∀ b, language (f b) = language b) →
  (∀ b, bs !! k = Some b → ¬ unavailable cs (language b)) →
  inert cs (alter f k bs).
Proof.
  intros Hin Hf Hk j b. rewrite list_lookup_alter.
  destruct (decide (k = j)) as [->|]; [|by apply Hin].
  destruct (bs !! j) as [x|] eqn:Hx; [|done]. simpl.
  intros [= <-]. rewrite Hf. intros Hu. by destruct (Hk x).
Qed.

Lemma inert_alter_all (cs : list Card) (f : Button → Button) (a : nat) (bs : list Button) :
  inert cs bs →
  (∀ b, language (f b) = language b) →
  allButton bs = Some a →
  inert cs (alter f a bs).
Proof.
  intros Hin Hf Ha. apply inert_alter; [done..|].
  intros b Hb [Hl _]. by rewrite (allButton_at bs a b) in Hl.
Qed.

Lemma availabilityButtons_inert (cs : list Card) (bs : list Button) :
  inert cs (availabilityButtons cs bs).
Proof.
  assert (inert cs (map (availability (availableLanguages cs)) bs)) as Hm.
  { intros j b Hb. apply list_lookup_fmap_Some in Hb as (x & -> & _).
    rewrite availability_language. apply availability_inert. }
  unfold availabilityButtons. destruct (allButton bs) as [a|] eqn:Ha; [|done].
  destruct (_ =? 0); [|done]. apply inert_alter_all; [done..|].
  rewrite <- Ha. apply allButton_same_languages, languages_fmap,
    availability_language.
Qed.

Lemma clickButtons_inert (cs : list Card) (i : nat) (bs : list Button) :
  inert cs bs →
  (∀ b, bs !! i = Some b → ¬ unavailable cs (language b)) →
  inert cs (clickButtons i bs).
Proof.
  intros Hin Hi. unfold clickButtons.
  destruct (bs !! i) as [b|] eqn:Hb; [|done].
  destruct (String.eqb _ "").
  - intros j x Hx. apply list_lookup_fmap_Some in Hx as (y & -> & Hy).
    simpl. intros Hu. destruct (Hin j y Hy Hu) as [Hh _]. split; [done|].
    rewrite pressed_setButtonPressed. apply not_true_iff_false.
    intros Hall%isAll_spec. by destruct Hu.
  - set (bs1 := alter _ i bs).
    assert (inert cs bs1) as H1.
    { apply inert_alter; [done..|]. intros x Hx. rewrite Hb in Hx.
      injection Hx as <-. by apply Hi. }
    destruct (allButton bs) as [a|] eqn:Ha; [|done].
    assert (allButton bs1 = Some a) as Ha1
      by (rewrite <- Ha; by apply allButton_same_languages, languages_alter).
    assert (inert cs (alter (setButtonPressed false) a bs1)) as H2
      by by apply inert_alter_all.
    destruct (negb _); [|done]. apply inert_alter_all; [done..|].
    rewrite <- Ha1. by apply allButton_same_languages, languages_alter.
Qed.

Lemma inert_not_selected (cs : list Card) (bs : list Button) (l : string) :
  inert cs bs → unavailable cs l → l ∉ selectedLanguages bs.
Proof.
  intros Hin Hu (b & Hb & Hs & <-)%elem_of_selectedLanguages.
  apply list_elem_of_lookup in Hb as [j Hj].
  destruct (Hin j b Hj Hu) as [_ Hp].
  apply selecting_spec in Hs as [_ Hs]. congruence.
Qed.

Lemma run_languages (v : string) (p : Page) (events : list Event) :
  language <$> languageFilters (page (run (start v p) events))
  = language <$> languageFilters p.
Proof. exact (f_equal layout_languages (run_layout v p events)). Qed.

Lemma run_inert (v : string) (p : Page) (events : list Event) :
  clicks_on_available p events →
  inert (cards p) (languageFilters (page (run (start v p) events))).
Proof.
  induction events as [|e events IH] using rev_ind; intros Hev.
  - simpl. rewrite applyFilter_languageFilters. apply availabilityButtons_inert.
  - assert (clicks_on_available p events) as Hev'.
    { intros i b Hi. apply Hev, elem_of_app. by left. }
    specialize (IH Hev'). rewrite run_snoc. destruct e as [text|i]; simpl.
    + by rewrite applyFilter_languageFilters.
    + rewrite click_languageFilters. apply clickButtons_inert; [done|].
      intros b Hb.
      assert ((language <$> languageFilters p) !! i = Some (language b)) as Hl
        by by rewrite <- (run_languages v p events), list_lookup_fmap, Hb.
      apply list_lookup_fmap_Some in Hl as (b0 & -> & Hb0).
      apply (Hev i b0); [|done]. apply elem_of_app. right. by left.
Qed.

(** C4, as the script has it.  After the availability pass a specific button
    whose value is the category of no card is hidden and unpressed, and it
    stays so, outside the selected set, through every later input event and
    every click on a button that has cards. *)
Theorem unavailable_button_inert
    (v : string) (p : Page) (events : list Event) (j : nat) (b0 : Button) :
  languageFilters p !! j = Some b0 →
  unavailable (cards p) (language b0) →
  clicks_on_available p events →
  let now := page (run (start v p) events) in
  ∃ b, languageFilters now !! j = Some b
       ∧ language b = language b0
       ∧ button_hidden b = true
       ∧ pressed b = false
       ∧ language b0 ∉ selectedLanguages (languageFilters now).
Proof.
  intros Hb0 Hu Hev now.
  pose proof (run_inert v p events Hev) as Hin. fold now in Hin.
  assert ((language <$> languageFilters now) !! j = Some (language b0)) as Hl
    by (unfold now; by rewrite run_languages, list_lookup_fmap, Hb0).
  apply list_lookup_fmap_Some in Hl as (b & Hlb & Hb).
  exists b. rewrite Hlb in Hu. destruct (Hin j b Hb Hu) as [Hh Hp].
  split_and!; try done. rewrite Hlb. by apply (inert_not_selected (cards p)).
Qed.

Lemma demo_kotlin_unavailable : unavailable (cards demo) "kotlin".
Proof.
  split; [done|]. intros c Hc. simpl in Hc.
  apply elem_of_cons in Hc as [->|Hc]; [done|].
  apply elem_of_cons in Hc as [->|Hc]; [done|].
  by apply not_elem_of_nil in Hc.
Qed.

Lemma demo_clicks_on_available : clicks_on_available demo [InputEvent "a"; ClickEvent 2].
Proof.
  intros i b Hi Hb.
  apply elem_of_cons in Hi as [Hi|Hi]; [done|].
  apply elem_of_cons in Hi as [[= ->]|Hi]; [|by apply not_elem_of_nil in Hi].
  injection Hb as <-. intros [_ Hno]. by apply (Hno beta); [right; left|].
Qed.

Lemma unavailable_button_inert_witness :
  let now := page (run (start "" demo) [InputEvent "a"; ClickEvent 2]) in
  ∃ b, languageFilters now !! 3 = Some b
       ∧ language b = language (filterButton "kotlin" false)
       ∧ button_hidden b = true
       ∧ pressed b = false
       ∧ language (filterButton "kotlin" false) ∉ selectedLanguages (languageFilters now).
Proof.
  apply (unavailable_button_inert "" demo [InputEvent "a"; ClickEvent 2] 3
           (filterButton "kotlin" false)).
  - reflexivity.
  - exact demo_kotlin_unavailable.
  - exact demo_clicks_on_available.
Defined.

(** C4, as stated, fails: the listener does not look at the [hidden] flag, so
    a click dispatched on the hidden "kotlin" button presses it, puts its
    value into the selected set and hides every card. *)
Lemma hidden_button_click_presses :
  let before := start "" demo in
  let after := handle before (ClickEvent 3) in
  unavailable (cards demo) "kotlin"
  ∧ languageFilters (page before) !! 3
    = Some {| language := "kotlin"; ariaPressed := Some "false";
              isActive := false; button_hidden := true |}
  ∧ languageFilters (page after) !! 3
    = Some {| language := "kotlin"; ariaPressed := Some "true";
              isActive := true; button_hidden := true |}
  ∧ "kotlin" ∈ selectedLanguages (languageFilters (page after))
  ∧ card_hidden <$> cards (page before) = [false; false]
  ∧ card_hidden <$> cards (page after) = [true; true].
Proof.
  split_and!; try reflexivity. exact demo_kotlin_unavailable.
Qed.

(** ** Missing elements *)

Lemma recompute_without_sectionCount (f : bool) (cs : list Card) (s : Section) :
  countSection cs (filterSection f cs (set_sectionCount None s))
  = set_sectionCount None (countSection cs (filterSection f cs s)).
Proof. destruct s as [ms st h [sc|]]; by destruct f. Qed.

Lemma applyFilter_without_emptyState (tc : nat) (v : string) (p : Page) :
  applyFilter tc v (without_emptyState p) = without_emptyState (applyFilter tc v p).
Proof. by rewrite !applyFilter_eq. Qed.

Lemma applyFilter_without_totalCountLabel (tc : nat) (v : string) (p : Page) :
  applyFilter tc v (without_totalCountLabel p)
  = without_totalCountLabel (applyFilter tc v p).
Proof. by rewrite !applyFilter_eq. Qed.

Lemma applyFilter_without_sectionCount (tc : nat) (v : string) (j : nat) (p : Page) :
  applyFilter tc v (without_sectionCount j p)
  = without_sectionCount j (applyFilter tc v p).
Proof.
  rewrite !applyFilter_eq. unfold without_sectionCount. simpl. f_equal.
  rewrite <- !list_fmap_compose.
  apply (fmap_alter_at _ (set_sectionCount None) (set_sectionCount None)).
  intros s _. apply recompute_without_sectionCount.
Qed.

Lemma applyFilter_without_languageFilters (tc : nat) (v : string) (p : Page) :
  selectedLanguages (languageFilters p) = ∅ →
  applyFilter tc v (without_languageFilters p)
  = without_languageFilters (applyFilter tc v p).
Proof.
  intros Hs. rewrite !applyFilter_eq. unfold without_languageFilters. simpl.
  by rewrite Hs.
Qed.

(** *** The script with its accesses to the document *)

Lemma computes_ret {A : Type} (a : A) : computes (Checked.ret a) a [].
Proof. done. Qed.

Lemma computes_bind {A B : Type} (m : Checked.Outcome A) (f : A → Checked.Outcome B)
    (a : A) (b : B) (w1 w2 : list (Checked.Element * string)) :
  computes m a w1 → computes (f a) b w2 → computes (Checked.bind m f) b (w1 ++ w2).
Proof.
  intros [Hr Hw] [Hr' Hw']. unfold Checked.bind. rewrite Hr. split; simpl; [done|].
  unfold Checked.writes in *. by rewrite omap_app, Hw, Hw'.
Qed.

Lemma computes_eq {A : Type} (m : Checked.Outcome A) (a a' : A)
    (w w' : list (Checked.Element * string)) :
  computes m a w → a = a' → w = w' → computes m a' w'.
Proof. by intros ? <- <-. Qed.

(** *** Arrays *)

Lemma handlesFrom_snd {A : Type} (i : nat) (l : list A) : (Checked.handlesFrom i l).*2 = l.
Proof. revert i. induction l as [|x l IH]; intros i; simpl; [done|]. by rewrite IH. Qed.

Lemma handlesFrom_fst {A : Type} (i : nat) (l : list A) :
  (Checked.handlesFrom i l).*1 = seq i (length l).
Proof. revert i. induction l as [|x l IH]; intros i; simpl; [done|]. by rewrite IH. Qed.

Lemma handles_fmap {A B : Type} (g : A → B) (l : list A) :
  (λ element, g element.2) <$> Checked.handles l = g <$> l.
Proof.
  rewrite <- (handlesFrom_snd 0 l) at 2. by rewrite <- list_fmap_compose.
Qed.

Lemma handles_positions {A B : Type} (g : nat → B) (l : list A) :
  (λ element, g element.1) <$> Checked.handles l = g <$> seq 0 (length l).
Proof. rewrite <- (handlesFrom_fst 0 l). by rewrite <- list_fmap_compose. Qed.

Lemma computes_forOf {A B : Type} (body : A → Checked.Outcome B) (g : A → B)
    (w : A → list (Checked.Element * string)) (l : list A) :
  (∀ x, computes (body x) (g x) (w x)) →
  computes (Checked.forOf body l) (g <$> l) (l ≫= w).
Proof.
  intros Hbody. induction l as [|x l IH]; [done|]. simpl.
  eapply computes_eq.
  - eapply computes_bind; [apply Hbody|]. eapply computes_bind; [apply IH|].
    apply computes_ret.
  - done.
  - by rewrite app_nil_r.
Qed.

Lemma computes_filterOf {A : Type} (keep : A → Checked.Outcome bool) (h : A → bool)
    (l : list A) :
  (∀ x, computes (keep x) (h x) []) →
  computes (Checked.filterOf keep l) (filter (λ x, h x) l) [].
Proof.
  intros Hkeep. induction l as [|x l IH]; [done|]. simpl.
  eapply computes_eq.
  - eapply computes_bind; [apply Hkeep|]. eapply computes_bind; [apply IH|].
    apply computes_ret.
  - rewrite filter_cons. by destruct (h x).
  - done.
Qed.

Lemma computes_findOf {A : Type} (test : nat * A → Checked.Outcome bool) (h : A → bool)
    (i : nat) (l : list A) :
  (∀ element, computes (test element) (h element.2) []) →
  computes (Checked.findOf test (Checked.handlesFrom i l))
    (prod_map (λ k, i + k) id <$> list_find (λ x, h x) l) [].
Proof.
  intros Htest. revert i. induction l as [|x l IH]; intros i; [done|].
  cbn [Checked.handlesFrom Checked.findOf list_find].
  destruct (h x) eqn:Hx.
  - eapply computes_eq.
    + eapply computes_bind; [apply Htest|]. simpl. rewrite Hx. apply computes_ret.
    + rewrite decide_True by done. simpl. unfold prod_map. simpl.
      do 2 f_equal. lia.
    + done.
  - eapply computes_eq.
    + eapply computes_bind; [apply Htest|]. simpl. rewrite Hx. apply IH.
    + rewrite decide_False by (by intros []).
      rewrite <- option_fmap_compose. apply option_fmap_ext.
      intros [k y]. unfold prod_map. simpl. f_equal. lia.
    + done.
Qed.

Lemma filter_handlesFrom {A : Type} (P : A → Prop) `{!∀ x, Decision (P x)}
    (i : nat) (l : list A) :
  (filter (λ element, P element.2) (Checked.handlesFrom i l)).*2 = filter P l.
Proof.
  revert i. induction l as [|x l IH]; intros i; [done|]. simpl.
  rewrite !filter_cons. simpl. destruct (decide (P x)); simpl; by rewrite IH.
Qed.

Lemma computes_tell (a : Checked.Access) :
  computes (Checked.tell a) tt (Checked.writes [a]).
Proof. done. Qed.

Lemma bind_nothing {A B : Type} (l : list A) : l ≫= (λ _, @nil B) = [].
Proof. by induction l. Qed.

Lemma bind_singleton {A B : Type} (g : A → B) (l : list A) :
  l ≫= (λ x, [g x]) = g <$> l.
Proof. induction l as [|x l IH]; [done|]. cbn. by f_equal. Qed.

Lemma handlesFrom_bind_fmap {A B C : Type} (f : A → B)
    (w : nat * B → list C) (w' : nat * A → list C) (i : nat) (l : list A) :
  (∀ k x, w (k, f x) = w' (k, x)) →
  Checked.handlesFrom i (f <$> l) ≫= w = Checked.handlesFrom i l ≫= w'.
Proof.
  intros Hw. revert i. induction l as [|x l IH]; intros i; [done|]. cbn.
  rewrite Hw. f_equal. apply IH.
Qed.

(** *** The pieces of the script *)

Lemma computes_searchableText (element : nat * Card) :
  computes (Checked.searchableText element) (searchableText element.2) [].
Proof. by destruct element. Qed.

Lemma computes_selectedLanguages (bs : list Button) :
  computes (Checked.selectedLanguages bs) (selectedLanguages bs) [].
Proof.
  unfold Checked.selectedLanguages. eapply computes_eq.
  - eapply computes_bind.
    + apply (computes_filterOf _ (λ element, selecting element.2)).
      intros [k b]. unfold selecting, pressed. simpl.
      by destruct (Js.truthy (language b)).
    + eapply computes_bind; [|apply computes_ret].
      apply (computes_forOf _ (λ element, Js.or (Some (language element.2)) "")
               (λ _, [])).
      by intros [k b].
  - unfold selectedLanguages. f_equal.
    rewrite <- (filter_handlesFrom (λ b, selecting b) 0 bs).
    by rewrite <- list_fmap_compose.
  - by rewrite bind_nothing.
Qed.

Lemma computes_queryMatches (q : string) (i : nat) (c : Card) :
  computes
    (if String.eqb q "" then Checked.ret true
     else Checked.bind (Checked.searchableText (i, c))
            (λ text, Checked.ret (Js.includes text q)))
    (queryMatches q c) [].
Proof. unfold queryMatches. by destruct (String.eqb q ""). Qed.

Lemma computes_filterCards (q : string) (L : gset string) (i : nat)
    (cs : list Card) (n : nat) :
  computes
    (Checked.filterCards q L (0 <? size L) (Checked.handlesFrom i cs) n)
    (filterCards q L cs n)
    ((λ k, (Checked.CardAt k, "hidden")) <$> seq i (length cs)).
Proof.
  revert i n. induction cs as [|c cs IH]; intros i n; [done|].
  cbn [Checked.handlesFrom Checked.filterCards filterCards length seq].
  pose proof (IH (S i) (if isVisible q L c then n + 1 else n)) as IH'.
  destruct (filterCards q L cs (if isVisible q L c then n + 1 else n))
    as [rest m] eqn:Hrec.
  eapply computes_eq.
  - eapply computes_bind; [apply computes_tell|].
    eapply computes_bind; [apply computes_queryMatches|].
    eapply computes_bind; [apply computes_tell|].
    eapply computes_bind; [apply IH'|]. apply computes_ret.
  - reflexivity.
  - simpl. by rewrite app_nil_r.
Qed.

Lemma computes_guarded_put {A : Type} (e : Checked.Element) (property : string)
    (reference : option A) (assign : A → A) :
  computes
    (if Checked.isElement reference
     then Checked.put e property reference assign
     else Checked.ret reference)
    (assign <$> reference) (when reference (e, property)).
Proof. by destruct reference. Qed.

Lemma handles_bind_positions {A B : Type} (g : nat → B) (l : list A) :
  Checked.handles l ≫= (λ '(k, _), [g k]) = g <$> seq 0 (length l).
Proof.
  unfold Checked.handles. generalize 0.
  induction l as [|x l IH]; intros i; [done|]. cbn. f_equal. apply IH.
Qed.

Lemma computes_applyFilter (tc : nat) (v : string) (p : Page) :
  computes (Checked.applyFilter tc v p) (applyFilter tc v p) (recomputation_writes p).
Proof.
  unfold Checked.applyFilter, applyFilter.
  set (q := queryOf v). set (L := selectedLanguages (languageFilters p)).
  pose proof (computes_filterCards q L 0 (cards p) 0) as Hcards.
  destruct (filterCards q L (cards p) 0) as [cs n] eqn:Hfc.
  set (isFiltering := negb (String.eqb q "") || (0 <? size L)).
  eapply computes_eq.
  - eapply computes_bind; [apply computes_tell|].
    eapply computes_bind; [apply computes_selectedLanguages|].
    eapply computes_bind; [apply Hcards|]. cbv beta iota.
    eapply computes_bind.
    { apply (computes_forOf _ (λ element, filterSection isFiltering cs element.2)
               (λ '(j, _), [(Checked.SectionAt j, "hidden")])).
      intros [j s]. unfold filterSection, isFiltering, q, L.
      by destruct (negb (negb _ || _)). }
    eapply computes_bind; [apply computes_guarded_put|].
    eapply computes_bind; [apply computes_guarded_put|].
    eapply computes_bind; [|apply computes_ret].
    apply (computes_forOf _ (λ element, countSection cs element.2)
             (λ '(j, section),
                when (sectionCount section) (Checked.SectionCountAt j, "textContent"))).
    intros [j [ms st h [sc|]]]; done.
  - by rewrite !handles_fmap.
  - unfold recomputation_writes. simpl. rewrite !app_nil_r.
    rewrite handles_bind_positions. do 4 f_equal.
    rewrite handles_fmap. unfold Checked.handles.
    apply handlesFrom_bind_fmap.
    intros k s. unfold filterSection. by destruct (negb isFiltering).
Qed.

(** *** What the listeners and the script return *)

Lemma result_bind {A B : Type} (m : Checked.Outcome A) (f : A → Checked.Outcome B)
    (a : A) :
  Checked.result m = Some a →
  Checked.result (Checked.bind m f) = Checked.result (f a).
Proof. intros Hm. unfold Checked.bind. by rewrite Hm. Qed.

Lemma result_forOf {A B : Type} (body : A → Checked.Outcome B) (g : A → B)
    (l : list A) :
  (∀ x, Checked.result (body x) = Some (g x)) →
  Checked.result (Checked.forOf body l) = Some (g <$> l).
Proof.
  intros Hbody.
  apply (computes_forOf body g (λ x, Checked.writes (Checked.trace (body x)))).
  intros x. by split.
Qed.

Lemma result_selectedLanguages (bs : list Button) :
  Checked.result (Checked.selectedLanguages bs) = Some (selectedLanguages bs).
Proof. apply computes_selectedLanguages. Qed.

Lemma result_applyFilter (tc : nat) (v : string) (p : Page) :
  Checked.result (Checked.applyFilter tc v p) = Some (applyFilter tc v p).
Proof. apply computes_applyFilter. Qed.

Lemma result_allButton (bs : list Button) :
  Checked.result (Checked.allButton bs) = Some (allButton bs).
Proof.
  unfold Checked.allButton. erewrite result_bind.
  2: { apply (computes_findOf _ isAll 0 bs). by intros [k b]. }
  simpl. unfold allButton. f_equal. by destruct (list_find _ bs) as [[k b]|].
Qed.

Lemma alter_as_insert {A : Type} (f : A → A) (a : nat) (l : list A) :
  match l !! a with Some x => <[a := f x]> l | None => l end = alter f a l.
Proof.
  revert a. induction l as [|y l IH]; intros [|a]; try done.
  specialize (IH a). cbn in *. destruct (l !! a); cbn in *; f_equal; exact IH.
Qed.

Lemma result_setPressedThrough (a : nat) (isPressed : bool) (bs : list Button) :
  Checked.result (Checked.setPressedThrough (Some a) isPressed bs)
  = Some (alter (setButtonPressed isPressed) a bs).
Proof.
  rewrite <- alter_as_insert. unfold Checked.setPressedThrough. simpl.
  by destruct (bs !! a).
Qed.

Lemma result_applyLanguageAvailability (p : Page) :
  Checked.result (Checked.applyLanguageAvailability p)
  = Some (applyLanguageAvailability p).
Proof.
  unfold Checked.applyLanguageAvailability.
  erewrite result_bind
    by (apply (result_forOf _ (λ element, cardLanguage element.2)); by intros [i c]).
  rewrite handles_fmap.
  erewrite result_bind by apply result_allButton.
  erewrite result_bind.
  2: { apply (result_forOf _
                (λ element, availability (availableLanguages (cards p)) element.2)).
       intros [k b]. unfold availability, availableLanguages. simpl.
       destruct (String.eqb _ ""); [done|]. by destruct (bool_decide _). }
  rewrite handles_fmap.
  unfold applyLanguageAvailability, availabilityButtons.
  destruct (allButton (languageFilters p)) as [a|]; simpl; [|done].
  erewrite result_bind
    by (erewrite result_bind by apply result_selectedLanguages; reflexivity).
  destruct (size _ =? 0); [|done].
  by erewrite result_bind by apply result_setPressedThrough.
Qed.

Lemma result_click (tc : nat) (v : string) (k : nat) (p : Page) :
  Checked.result (Checked.click tc v k p) = Some (click tc v k p).
Proof.
  unfold Checked.click, click, clickButtons.
  destruct (languageFilters p !! k) as [b|] eqn:Hb; [|done].
  erewrite result_bind by reflexivity.
  erewrite result_bind by apply result_allButton.
  destruct (String.eqb _ "").
  - erewrite result_bind.
    2: { apply (result_forOf _
                  (λ element, setButtonPressed (isAll element.2) element.2)).
         by intros [m fb]. }
    rewrite (handles_fmap (λ fb, setButtonPressed (isAll fb) fb)).
    apply result_applyFilter.
  - erewrite result_bind by reflexivity.
    erewrite result_bind by reflexivity.
    assert (<[k := setButtonPressed (negb (pressed b)) b]> (languageFilters p)
            = alter (λ b, setButtonPressed (negb (pressed b)) b) k (languageFilters p))
      as Hk by (by rewrite <- alter_as_insert, Hb).
    change (<[k := _]> (languageFilters p))
      with (<[k := setButtonPressed (negb (pressed b)) b]> (languageFilters p)).
    rewrite Hk.
    destruct (allButton (languageFilters p)) as [a|]; simpl.
    + erewrite result_bind by apply result_setPressedThrough.
      erewrite result_bind by apply result_selectedLanguages.
      rewrite andb_true_r.
      destruct (negb (0 <? size _)).
      * erewrite result_bind by apply result_setPressedThrough.
        apply result_applyFilter.
      * erewrite result_bind by reflexivity. apply result_applyFilter.
    + erewrite result_bind by apply result_selectedLanguages.
      rewrite andb_false_r. apply result_applyFilter.
Qed.

Lemma result_main (v : string) (p : Page) :
  Checked.result (Checked.main (Some v) p) = Some (main (Some v) p).
Proof.
  unfold Checked.main, main.
  erewrite result_bind by reflexivity. cbn [Checked.isElement negb].
  do 5 (erewrite result_bind by reflexivity).
  erewrite result_bind by (apply (result_forOf _ (λ _, tt)); by intros [k b]).
  erewrite result_bind by apply result_applyLanguageAvailability.
  do 2 (erewrite result_bind by reflexivity).
  apply result_applyFilter.
Qed.

(** *** The simple variant *)

Lemma computes_simple_filterCards (q : string) (i : nat) (cs : list Card) (n : nat) :
  computes
    (Checked.Simple.filterCards q (Checked.handlesFrom i cs) n)
    (Simple.filterCards q cs n)
    ((λ k, (Checked.CardAt k, "hidden")) <$> seq i (length cs)).
Proof.
  revert i n. induction cs as [|c cs IH]; intros i n; [done|].
  cbn [Checked.handlesFrom Checked.Simple.filterCards Simple.filterCards length seq].
  pose proof (IH (S i) (if queryMatches q c then n + 1 else n)) as IH'.
  unfold queryMatches in IH' at 2.
  destruct (Simple.filterCards q cs _) as [rest m] eqn:Hrec.
  eapply computes_eq.
  - eapply computes_bind; [apply computes_queryMatches|].
    eapply computes_bind; [apply computes_tell|].
    eapply computes_bind; [apply IH'|]. apply computes_ret.
  - reflexivity.
  - simpl. by rewrite app_nil_r.
Qed.

Lemma computes_simple_applyFilter (v : string) (p : Page) :
  computes (Checked.Simple.applyFilter v p) (Simple.applyFilter v p)
    (simple_recomputation_writes p).
Proof.
  unfold Checked.Simple.applyFilter, Simple.applyFilter.
  pose proof (computes_simple_filterCards (queryOf v) 0 (cards p) 0) as Hcards.
  destruct (Simple.filterCards (queryOf v) (cards p) 0) as [cs n] eqn:Hfc.
  eapply computes_eq.
  - eapply computes_bind; [apply computes_tell|].
    eapply computes_bind; [apply Hcards|]. cbv beta iota.
    eapply computes_bind.
    { apply (computes_forOf _ (λ element, Simple.filterSection (queryOf v) cs element.2)
               (λ '(j, _), [(Checked.SectionAt j, "hidden")])).
      intros [j s]. unfold Simple.filterSection, queryOf.
      by destruct (String.eqb _ ""). }
    eapply computes_bind; [apply computes_guarded_put|]. apply computes_ret.
  - by rewrite !handles_fmap.
  - unfold simple_recomputation_writes. simpl. rewrite !app_nil_r.
    by rewrite handles_bind_positions.
Qed.

Lemma result_simple_main (v : string) (p : Page) :
  Checked.result (Checked.Simple.main (Some v) p) = Some (Simple.main (Some v) p).
Proof.
  unfold Checked.Simple.main, Simple.main.
  erewrite result_bind by reflexivity. cbn [Checked.isElement negb].
  do 5 (erewrite result_bind by reflexivity).
  apply computes_simple_applyFilter.
Qed.

(** *** A page without one of its optional elements *)

Lemma filter_all {A : Type} (P : A → Prop) `{!∀ x, Decision (P x)} (l : list A) :
  Forall P l → filter P l = l.
Proof.
  induction 1 as [|x l Hx _ IH]; [done|]. by rewrite filter_cons_True, IH.
Qed.

Lemma summary_writes_from (i : nat) (l : list Section) :
  Forall (λ w, ∃ j, i ≤ j ∧ w = (Checked.SectionCountAt j, "textContent"))
    (Checked.handlesFrom i l
       ≫= λ '(j, section),
            when (sectionCount section) (Checked.SectionCountAt j, "textContent")).
Proof.
  revert i. induction l as [|s l IH]; intros i; [constructor|]. cbn.
  apply Forall_app. split.
  - destruct (sectionCount s); repeat constructor. by exists i.
  - eapply Forall_impl; [apply IH|]. intros w (j & Hj & ->). exists j. split; [lia|done].
Qed.

Lemma summary_writes_without (i j : nat) (l : list Section) :
  Checked.handlesFrom i (alter (set_sectionCount None) j l)
    ≫= (λ '(j, section),
          when (sectionCount section) (Checked.SectionCountAt j, "textContent"))
  = filter (λ w, w.1 ≠ Checked.SectionCountAt (i + j))
      (Checked.handlesFrom i l
         ≫= λ '(j, section),
              when (sectionCount section) (Checked.SectionCountAt j, "textContent")).
Proof.
  revert i j. induction l as [|s l IH]; intros i j; [by destruct j|].
  destruct j as [|j]; cbn; rewrite filter_app.
  - rewrite (filter_all _ (_ ≫= _)).
    + f_equal. destruct (sectionCount s); [|done]. simpl.
      rewrite filter_cons_False; [done|]. simpl. rewrite Nat.add_0_r. by intros [].
    + eapply Forall_impl; [apply (summary_writes_from (S i))|].
      intros w (k & Hk & ->). simpl. intros [= ->]. lia.
  - f_equal.
    + destruct (sectionCount s); [|done]. simpl.
      rewrite filter_cons_True; [done|]. simpl. intros [= ?]. lia.
    + rewrite (IH (S i) j). apply list_filter_iff. intros w.
      by replace (S i + j) with (i + S j) by lia.
Qed.

Ltac keep_writes :=
  repeat match goal with
  | |- context [filter ?P (?g <$> seq 0 ?n)] =>
      rewrite (filter_all P (g <$> seq 0 n))
        by (apply Forall_fmap, Forall_true; done)
  | |- context [filter ?P (when ?o ?x)] =>
      progress rewrite (filter_all P (when o x))
        by (destruct o; repeat constructor; done)
  | |- context [filter ?P (Checked.handles ?l ≫= ?w)] =>
      rewrite (filter_all P (Checked.handles l ≫= w))
        by (eapply Forall_impl; [apply (summary_writes_from 0)|];
            by intros ? (? & _ & ->))
  end.

Lemma recomputation_writes_without_emptyState (p : Page) :
  recomputation_writes (without_emptyState p)
  = filter (λ w, w.1 ≠ Checked.EmptyState) (recomputation_writes p).
Proof.
  unfold recomputation_writes. simpl. rewrite !filter_app. keep_writes.
  do 2 f_equal. by destruct (emptyState p).
Qed.

Lemma recomputation_writes_without_totalCountLabel (p : Page) :
  recomputation_writes (without_totalCountLabel p)
  = filter (λ w, w.1 ≠ Checked.TotalCountLabel) (recomputation_writes p).
Proof.
  unfold recomputation_writes. simpl. rewrite !filter_app. keep_writes.
  do 3 f_equal. by destruct (totalCountLabel p).
Qed.

Lemma recomputation_writes_without_sectionCount (j : nat) (p : Page) :
  recomputation_writes (without_sectionCount j p)
  = filter (λ w, w.1 ≠ Checked.SectionCountAt j) (recomputation_writes p).
Proof.
  unfold recomputation_writes. simpl. rewrite !filter_app.
  rewrite length_alter. unfold Checked.handles at 1.
  rewrite (summary_writes_without 0 j). by keep_writes.
Qed.

(** The accesses the guards are there for do throw in the model: a write
    through a missing element, a read through a missing summary, a press
    of a missing "all" button. *)
Example unguarded_access_throws :
  Checked.result (Checked.put Checked.EmptyState "hidden" (None : option bool) id) = None
  ∧ Checked.result
      (Checked.get (Checked.SectionCountAt 0) "data-total"
         (None : option SectionCount) data_total) = None
  ∧ Checked.result (Checked.setPressedThrough None true (languageFilters demo)) = None.
Proof. by split_and!. Qed.


(** ** The simple variant *)

Lemma simple_filterCards (q : string) (cs : list Card) (n : nat) :
  Simple.filterCards q cs n = filterCards q ∅ cs n.
Proof.
  revert n. induction cs as [|c cs IH]; intros n; [done|].
  cbn [Simple.filterCards filterCards].
  assert (isVisible q ∅ c = String.eqb q "" || Js.includes (searchableText c) q)
    as -> by (unfold isVisible, queryMatches; apply andb_true_r).
  by rewrite IH.
Qed.

Lemma simple_filterSection (q : string) (cs : list Card) (s : Section) :
  Simple.filterSection q cs s = filterSection (negb (String.eqb q "") || false) cs s.
Proof. unfold Simple.filterSection, filterSection. by destruct (String.eqb q ""). Qed.

(** On a page without filter buttons and without summaries the extended
    script does what the simple one does. *)
Lemma simple_applyFilter (tc : nat) (v : string) (p : Page) :
  languageFilters p = [] →
  totalCountLabel p = None →
  (∀ s, s ∈ sections p → sectionCount s = None) →
  applyFilter tc v p = Simple.applyFilter v p.
Proof.
  intros Hb Hl Hs. unfold applyFilter, Simple.applyFilter.
  rewrite Hb, Hl, simple_filterCards.
  change (selectedLanguages []) with (∅ : gset string).
  change (0 <? size (∅ : gset string)) with false.
  destruct (filterCards _ _ _ _) as [cs n]. f_equal.
  - rewrite <- !list_fmap_compose. apply list_fmap_ext. intros i s Hi.
    simpl. rewrite simple_filterSection. unfold countSection.
    rewrite filterSection_sectionCount, Hs; [done|].
    apply list_elem_of_lookup. eauto.
  - destruct (emptyState p); [|done]. simpl. by destruct (String.eqb _ "").
Qed.

(** ** The scenarios of the specification *)

Example scenario_query_cli :
  card_hidden <$> cards (main (Some "cli") demo) = [false; true]
  ∧ totalCountLabel (main (Some "cli") demo) = Some "Public repositories: 1/2".
Proof. by split. Qed.

Example scenario_go_selected :
  let now := page (run (start "" demo) [ClickEvent 2]) in
  card_hidden <$> cards now = [true; false]
  ∧ section_hidden <$> sections now = [true; false]
  ∧ emptyState now = Some true.
Proof. by split_and!. Qed.

Example scenario_no_match :
  let now := main (Some "zzz") demo in
  card_hidden <$> cards now = [true; true]
  ∧ section_hidden <$> sections now = [true; true]
  ∧ emptyState now = Some false.
Proof. by split_and!. Qed.

Example scenario_last_specific_unpressed :
  let now := page (run (start "" demo) [ClickEvent 2; ClickEvent 2]) in
  toggle_of (languageFilters now) = AllSelected.
Proof. reflexivity. Qed.

Example queryOf_trims_and_folds : queryOf "  Cli Tool " = "cli tool".
Proof. reflexivity. Qed.

Example parseInt_examples :
  Js.parseInt "12" = Js.Int 12 ∧ Js.parseInt " -7px" = Js.Int (-7)
  ∧ Js.parseInt "many" = Js.NaN.
Proof. by split_and!. Qed.

(** * Further properties of the script *)

(** ** The query *)

Lemma lowerChar_idem (c : ascii) : Js.lowerChar (Js.lowerChar c) = Js.lowerChar c.
Proof. destruct c as [[] [] [] [] [] [] [] []]; reflexivity. Qed.

Lemma isWhiteSpace_lowerChar (c : ascii) :
  Js.isWhiteSpace (Js.lowerChar c) = Js.isWhiteSpace c.
Proof. destruct c as [[] [] [] [] [] [] [] []]; reflexivity. Qed.

Lemma toLowerCase_idem (s : string) :
  Js.toLowerCase (Js.toLowerCase s) = Js.toLowerCase s.
Proof.
  induction s as [|c s IH]; [done|]. simpl. by rewrite lowerChar_idem, IH.
Qed.

Lemma trimStart_toLowerCase (s : string) :
  Js.trimStart (Js.toLowerCase s) = Js.toLowerCase (Js.trimStart s).
Proof.
  induction s as [|c s IH]; [done|]. simpl.
  rewrite isWhiteSpace_lowerChar. by destruct (Js.isWhiteSpace c).
Qed.

Lemma trimEnd_toLowerCase (s : string) :
  Js.trimEnd (Js.toLowerCase s) = Js.toLowerCase (Js.trimEnd s).
Proof.
  induction s as [|c s IH]; [done|]. simpl.
  rewrite IH, isWhiteSpace_lowerChar.
  destruct (Js.trimEnd s); simpl; [|done]. by destruct (Js.isWhiteSpace c).
Qed.

Lemma trim_toLowerCase (s : string) :
  Js.trim (Js.toLowerCase s) = Js.toLowerCase (Js.trim s).
Proof. unfold Js.trim. by rewrite trimStart_toLowerCase, trimEnd_toLowerCase. Qed.

Lemma trimStart_clean (s : string) : starts_clean (Js.trimStart s).
Proof.
  induction s as [|c s IH]; [done|]. simpl.
  by destruct (Js.isWhiteSpace c) eqn:Hc.
Qed.

Lemma trimStart_of_clean (s : string) : starts_clean s → Js.trimStart s = s.
Proof. destruct s as [|c s]; [done|]. simpl. by intros ->. Qed.

Lemma trimEnd_clean (s : string) : starts_clean s → starts_clean (Js.trimEnd s).
Proof.
  destruct s as [|c s]; [done|]. simpl. intros Hc.
  destruct (Js.trimEnd s); [by rewrite Hc | done].
Qed.

Lemma trimEnd_cons (c : ascii) (s : string) :
  Js.trimEnd (String c s)
  = match Js.trimEnd s with
    | EmptyString => if Js.isWhiteSpace c then EmptyString else String c EmptyString
    | t => String c t
    end.
Proof. reflexivity. Qed.

Lemma trimEnd_idem (s : string) : Js.trimEnd (Js.trimEnd s) = Js.trimEnd s.
Proof.
  induction s as [|c s IH]; [done|]. rewrite trimEnd_cons.
  destruct (Js.trimEnd s) as [|d t] eqn:Ht.
  - destruct (Js.isWhiteSpace c) eqn:Hc; [done|]. simpl. by rewrite Hc.
  - by rewrite trimEnd_cons, IH.
Qed.

Lemma trim_idem (s : string) : Js.trim (Js.trim s) = Js.trim s.
Proof.
  unfold Js.trim.
  rewrite (trimStart_of_clean (Js.trimEnd _))
    by apply trimEnd_clean, trimStart_clean.
  apply trimEnd_idem.
Qed.

Lemma trimStart_blank_app (a s : string) :
  blank a = true → Js.trimStart (a +:+ s) = Js.trimStart s.
Proof.
  induction a as [|c a IH]; [done|]. simpl.
  intros [Hc Ha]%andb_true_iff. rewrite ?append_cons. simpl. by rewrite Hc, IH.
Qed.

Lemma trimEnd_blank (b : string) : blank b = true → Js.trimEnd b = "".
Proof.
  induction b as [|c b IH]; [done|]. simpl.
  intros [Hc Hb]%andb_true_iff. by rewrite IH, Hc.
Qed.

Lemma trimEnd_app_blank (s b : string) :
  blank b = true → Js.trimEnd (s +:+ b) = Js.trimEnd s.
Proof.
  intros Hb. induction s as [|c s IH].
  - rewrite append_nil_l. by apply trimEnd_blank.
  - rewrite append_cons. simpl. by rewrite IH.
Qed.

Lemma trimStart_app_nonblank (s b : string) :
  Js.trimStart s ≠ "" → Js.trimStart (s +:+ b) = Js.trimStart s +:+ b.
Proof.
  induction s as [|c s IH]; [done|]. rewrite append_cons. simpl.
  destruct (Js.isWhiteSpace c); [done | by rewrite append_cons].
Qed.

Lemma trimStart_app_blank (s b : string) :
  Js.trimStart s = "" → blank b = true → Js.trimStart (s +:+ b) = "".
Proof.
  induction s as [|c s IH]; simpl.
  - intros _ Hb. rewrite append_nil_l.
    induction b as [|d b IHb]; [done|]. simpl in *.
    apply andb_true_iff in Hb as [-> Hb]. by apply IHb.
  - rewrite ?append_cons. simpl. by destruct (Js.isWhiteSpace c).
Qed.

Lemma trim_padding (a s b : string) :
  blank a = true → blank b = true → Js.trim (a +:+ s +:+ b) = Js.trim s.
Proof.
  intros Ha Hb. unfold Js.trim. rewrite trimStart_blank_app by done.
  destruct (decide (Js.trimStart s = "")) as [He|Hne].
  - by rewrite trimStart_app_blank, He.
  - by rewrite trimStart_app_nonblank, trimEnd_app_blank.
Qed.

Lemma queryOf_blank (v : string) : blank v = true → queryOf v = "".
Proof.
  intros Hv. unfold queryOf.
  change (Js.trim v) with (Js.trim ("" +:+ "" +:+ v)).
  by rewrite trim_padding.
Qed.

(** The recomputation reads the input through [queryOf] only. *)
Lemma applyFilter_query (tc : nat) (v v' : string) (p : Page) :
  queryOf v = queryOf v' → applyFilter tc v p = applyFilter tc v' p.
Proof. intros Hq. unfold applyFilter. by rewrite Hq. Qed.

Lemma simple_applyFilter_query (v v' : string) (p : Page) :
  queryOf v = queryOf v' → Simple.applyFilter v p = Simple.applyFilter v' p.
Proof. intros Hq. unfold Simple.applyFilter. by rewrite Hq. Qed.

Lemma queryOf_same_letters (v v' : string) :
  Js.toLowerCase v = Js.toLowerCase v' → queryOf v = queryOf v'.
Proof. intros Hv. unfold queryOf. by rewrite <- !trim_toLowerCase, Hv. Qed.

(** X1. The search does not tell upper case from lower case in what is
    typed: two inputs with the same lower-cased text give the same page, in
    both scripts. *)
Theorem query_case_insensitive (tc : nat) (v v' : string) (p : Page) :
  Js.toLowerCase v = Js.toLowerCase v' →
  applyFilter tc v p = applyFilter tc v' p
  ∧ Simple.applyFilter v p = Simple.applyFilter v' p.
Proof.
  intros Hq%queryOf_same_letters.
  split; [by apply applyFilter_query | by apply simple_applyFilter_query].
Qed.

Lemma query_case_insensitive_witness :
  applyFilter 2 "CLI Tool" demo = applyFilter 2 "cli tOOL" demo
  ∧ Simple.applyFilter "CLI Tool" demo = Simple.applyFilter "cli tOOL" demo.
Proof. apply (query_case_insensitive 2 "CLI Tool" "cli tOOL" demo). reflexivity. Defined.

(** X2. White space around what is typed is ignored: padding the input with
    blanks on either side gives the same page, in both scripts. *)
Theorem query_padding_ignored (tc : nat) (a v b : string) (p : Page) :
  blank a = true → blank b = true →
  applyFilter tc (a +:+ v +:+ b) p = applyFilter tc v p
  ∧ Simple.applyFilter (a +:+ v +:+ b) p = Simple.applyFilter v p.
Proof.
  intros Ha Hb.
  assert (queryOf (a +:+ v +:+ b) = queryOf v) as Hq
    by (unfold queryOf; by rewrite trim_padding).
  split; [by apply applyFilter_query | by apply simple_applyFilter_query].
Qed.

Lemma query_padding_ignored_witness :
  applyFilter 2 ("  " +:+ "cli" +:+ " ") demo = applyFilter 2 "cli" demo
  ∧ Simple.applyFilter ("  " +:+ "cli" +:+ " ") demo = Simple.applyFilter "cli" demo.
Proof. apply (query_padding_ignored 2 "  " "cli" " " demo); reflexivity. Defined.

(** ** What a recomputation shows *)

Lemma applyFilter_card_lookup (tc : nat) (v : string) (p : Page) (i : nat) :
  cards (applyFilter tc v p) !! i
  = (λ c, set_card_hidden
            (negb (isVisible (queryOf v) (selectedLanguages (languageFilters p)) c)) c)
      <$> cards p !! i.
Proof. by rewrite applyFilter_cards, filterCards_cards, list_lookup_fmap. Qed.

Lemma visible_count_all (cs : list Card) :
  Forall (λ c, card_hidden c = false) cs → visible_count cs = length cs.
Proof.
  unfold visible_count. induction 1 as [|c cs Hc _ IH]; [done|].
  rewrite filter_cons_True by done. simpl. by rewrite IH.
Qed.

Lemma isVisible_unfiltered (c : Card) : isVisible "" ∅ c = true.
Proof. apply isVisible_spec. split; by left. Qed.

(** Without a query and without a selected language nothing is filtered. *)
Lemma applyFilter_unfiltered (tc : nat) (v : string) (p : Page) :
  queryOf v = "" →
  selectedLanguages (languageFilters p) = ∅ →
  Forall (λ c, card_hidden c = false) (cards (applyFilter tc v p))
  ∧ Forall (λ s, section_hidden s = false) (sections (applyFilter tc v p))
  ∧ emptyState (applyFilter tc v p) = const true <$> emptyState p
  ∧ totalCountLabel (applyFilter tc v p)
    = const (global_summary (length (cards p)) tc) <$> totalCountLabel p.
Proof.
  intros Hv HS. rewrite applyFilter_eq. rewrite Hv, HS.
  set (cs := map _ (cards p)).
  assert (Forall (λ c, card_hidden c = false) cs) as Hcs.
  { apply Forall_fmap, Forall_true. intros c. simpl.
    by rewrite isVisible_unfiltered. }
  assert (visible_count cs = length (cards p)) as Hn
    by (rewrite visible_count_all by done; apply length_fmap).
  simpl. split_and!; [done | | by rewrite Hn..].
  apply Forall_fmap, Forall_fmap, Forall_true. intros s. simpl.
  by rewrite countSection_hidden.
Qed.

(** X3. An input of white space only, with no language selected, is no
    filter at all: every card and every section is shown, the "no results"
    element is hidden and the global summary counts all cards. *)
Theorem blank_input_shows_everything (v : string) (p : Page) :
  blank v = true →
  selectedLanguages (languageFilters p) = ∅ →
  let now := applyFilter (length (cards p)) v p in
  Forall (λ c, card_hidden c = false) (cards now)
  ∧ Forall (λ s, section_hidden s = false) (sections now)
  ∧ emptyState now = const true <$> emptyState p
  ∧ totalCountLabel now
    = const (global_summary (length (cards p)) (length (cards p)))
        <$> totalCountLabel p.
Proof.
  intros Hv HS now. apply applyFilter_unfiltered; [by apply queryOf_blank | done].
Qed.

Lemma blank_input_shows_everything_witness :
  let now := applyFilter (length (cards demo)) "   " demo in
  Forall (λ c, card_hidden c = false) (cards now)
  ∧ Forall (λ s, section_hidden s = false) (sections now)
  ∧ emptyState now = const true <$> emptyState demo
  ∧ totalCountLabel now
    = const (global_summary (length (cards demo)) (length (cards demo)))
        <$> totalCountLabel demo.
Proof. apply (blank_input_shows_everything "   " demo); reflexivity. Defined.

Lemma substring_of_trans (a b c : string) :
  substring_of a b → substring_of b c → substring_of a c.
Proof.
  intros (p1 & s1 & ->) (p2 & s2 & ->).
  exists (p2 +:+ p1), (s1 +:+ s2). by rewrite !append_assoc.
Qed.

Lemma substring_of_empty (q : string) : substring_of q "" → q = "".
Proof.
  intros (pre & post & H). destruct pre as [|c pre]; [|done].
  by destruct q.
Qed.

Lemma query_matches_narrower (q q' : string) (c : Card) :
  substring_of q q' → query_matches q' c → query_matches q c.
Proof.
  intros Hsub [->|Hin].
  - left. by apply substring_of_empty.
  - right. by apply (substring_of_trans q q').
Qed.

(** X4. Typing more never brings a card back: when the old query occurs in
    the new one, every card shown for the new query was shown for the old
    one (the buttons being the same). *)
Theorem longer_query_shows_less
    (tc : nat) (v v' : string) (p : Page) (i : nat) (c' : Card) :
  substring_of (queryOf v) (queryOf v') →
  cards (applyFilter tc v' p) !! i = Some c' →
  card_hidden c' = false →
  ∃ c, cards (applyFilter tc v p) !! i = Some c ∧ card_hidden c = false.
Proof.
  intros Hsub. rewrite !applyFilter_card_lookup.
  destruct (cards p !! i) as [c0|]; [|done]. simpl.
  intros [= <-]. simpl. rewrite negb_false_iff, isVisible_spec.
  intros [Hq HS]. eexists. split; [done|]. simpl.
  rewrite negb_false_iff, isVisible_spec.
  split; [by apply (query_matches_narrower _ (queryOf v')) | done].
Qed.

Lemma longer_query_shows_less_witness :
  ∃ c, cards (applyFilter 2 "cl" demo) !! 0 = Some c ∧ card_hidden c = false.
Proof.
  apply (longer_query_shows_less 2 "cl" "cli" demo 0 (set_card_hidden false alpha)).
  - by exists "", "i".
  - reflexivity.
  - reflexivity.
Defined.

Lemma trimStart_suffix (s : string) : ∃ pre, s = pre +:+ Js.trimStart s.
Proof.
  induction s as [|c s [pre IH]]; [by exists ""|]. simpl.
  destruct (Js.isWhiteSpace c); [|by exists ""].
  exists (String c pre). by rewrite append_cons, <- IH.
Qed.

Lemma trimEnd_prefix (s : string) : ∃ post, s = Js.trimEnd s +:+ post.
Proof.
  induction s as [|c s [post IH]]; [by exists ""|]. rewrite trimEnd_cons.
  destruct (Js.trimEnd s) as [|d t].
  - destruct (Js.isWhiteSpace c).
    + exists (String c s). done.
    + exists post. by rewrite append_cons, <- IH.
  - exists post. by rewrite append_cons, <- IH.
Qed.

Lemma trim_substring (s : string) : substring_of (Js.trim s) s.
Proof.
  destruct (trimStart_suffix s) as [pre Hpre].
  destruct (trimEnd_prefix (Js.trimStart s)) as [post Hpost].
  exists pre, post. unfold Js.trim. by rewrite <- Hpost.
Qed.

Lemma toLowerCase_substring (a b : string) :
  substring_of a b → substring_of (Js.toLowerCase a) (Js.toLowerCase b).
Proof.
  intros (pre & post & ->). rewrite !toLowerCase_app. by eexists _, _.
Qed.

Lemma own_text_in_joined (t : string) (c : Card) :
  t = repoName c ∨ t = default "" (repoLanguage c)
    ∨ t = default "" (repoDescription c) →
  substring_of t (joined c).
Proof.
  unfold joined. intros [->|[->| ->]].
  - by exists "", (" " +:+ default "" (repoLanguage c) +:+ " "
                     +:+ default "" (repoDescription c)).
  - exists (repoName c +:+ " "), (" " +:+ default "" (repoDescription c)).
    by rewrite !append_assoc.
  - exists (repoName c +:+ " " +:+ default "" (repoLanguage c) +:+ " "), "".
    by rewrite append_nil_r, !append_assoc.
Qed.

(** X5. A card is found by its own texts: typing its name, its language or
    its description, or a part of one, in any case and with blanks around,
    shows the card unless the selected languages exclude it.  The input is
    [a +:+ w +:+ b] with [a] and [b] white space only, and [w] occurs in
    the attribute [t] once both are in lower case. *)
Theorem own_text_finds_card
    (tc : nat) (a w b t : string) (p : Page) (i : nat) (c : Card) :
  cards p !! i = Some c →
  t = repoName c ∨ t = default "" (repoLanguage c)
    ∨ t = default "" (repoDescription c) →
  blank a = true → blank b = true →
  substring_of (Js.toLowerCase w) (Js.toLowerCase t) →
  language_matches (selectedLanguages (languageFilters p)) c →
  ∃ c', cards (applyFilter tc (a +:+ w +:+ b) p) !! i = Some c'
        ∧ card_hidden c' = false.
Proof.
  intros Hc Ht Ha Hb Hw HS. rewrite applyFilter_card_lookup, Hc. simpl.
  eexists. split; [done|]. simpl. rewrite negb_false_iff, isVisible_spec.
  split; [|done]. right. unfold queryOf. rewrite trim_padding by done.
  apply (substring_of_trans _ (Js.toLowerCase w));
    [apply toLowerCase_substring, trim_substring|].
  apply (substring_of_trans _ (Js.toLowerCase t)); [done|].
  by apply toLowerCase_substring, own_text_in_joined.
Qed.

Lemma own_text_finds_card_witness :
  ∃ c', cards (applyFilter 2 ("" +:+ "ALPHA" +:+ " ") demo) !! 0 = Some c'
        ∧ card_hidden c' = false.
Proof.
  apply (own_text_finds_card 2 "" "ALPHA" " " "alpha" demo 0 alpha).
  - reflexivity.
  - left. reflexivity.
  - reflexivity.
  - reflexivity.
  - by exists "", "".
  - left. reflexivity.
Defined.

Lemma visible_count_zero (cs : list Card) :
  visible_count cs = 0 → Forall (λ c, card_hidden c = true) cs.
Proof.
  unfold visible_count. induction cs as [|c cs IH]; [done|].
  rewrite filter_cons. destruct (decide (card_hidden c = false)) as [|Hc]; [done|].
  intros Hn. constructor; [by destruct (card_hidden c) | by apply IH].
Qed.

Lemma no_card_shown (cs : list Card) (s : Section) :
  Forall (λ c, card_hidden c = true) cs → ¬ has_shown_card cs s.
Proof.
  intros Hcs (j & _ & c & Hc & Hh).
  rewrite Forall_lookup in Hcs. rewrite (Hcs j c Hc) in Hh. done.
Qed.

(** X6. When a recomputation leaves the "no results" element shown, every
    card of the collection is hidden, and a section is shown only if it
    holds a [.repo-card] element outside the collection that is not
    hidden. *)
Theorem no_results_means_nothing_shown (tc : nat) (v : string) (p : Page) :
  emptyState (applyFilter tc v p) = Some false →
  Forall (λ c, card_hidden c = true) (cards (applyFilter tc v p))
  ∧ Forall (λ s, section_hidden s = false → has_shown_stray s)
      (sections (applyFilter tc v p)).
Proof.
  rewrite applyFilter_eq. simpl. set (cs := map _ (cards p)).
  destruct (emptyState p); [|done]. simpl. intros [= He].
  apply orb_false_iff in He as [Hf Hn].
  apply negb_false_iff in Hf. apply Nat.ltb_ge in Hn.
  assert (Forall (λ c, card_hidden c = true) cs) as Hcs
    by (apply visible_count_zero; lia).
  split; [done|]. apply Forall_fmap, Forall_fmap, Forall_true. intros s. simpl.
  rewrite countSection_hidden, filterSection_hidden, Hf.
  unfold has_shown_stray. rewrite countSection_strays, filterSection_strays.
  intros [?|[Hc|?]]; [done | by destruct (no_card_shown cs s Hcs) | done].
Qed.

Lemma no_results_means_nothing_shown_witness :
  Forall (λ c, card_hidden c = true) (cards (applyFilter 1 "zzz" nameless))
  ∧ Forall (λ s, section_hidden s = false → has_shown_stray s)
      (sections (applyFilter 1 "zzz" nameless)).
Proof. apply (no_results_means_nothing_shown 1 "zzz" nameless). reflexivity. Defined.

(** ** A recomputation starts from scratch *)

Lemma recompute_card_twice (q q' : string) (S S' : gset string) (c : Card) :
  set_card_hidden (negb (isVisible q S (set_card_hidden (negb (isVisible q' S' c)) c)))
    (set_card_hidden (negb (isVisible q' S' c)) c)
  = set_card_hidden (negb (isVisible q S c)) c.
Proof. reflexivity. Qed.

Lemma recompute_section_twice (f f' : bool) (cs cs' : list Card) (s : Section) :
  countSection cs (filterSection f cs (countSection cs' (filterSection f' cs' s)))
  = countSection cs (filterSection f cs s).
Proof. destruct s as [ms st h [sc|]]; by destruct f, f'. Qed.

Lemma applyFilter_after (tc tc' : nat) (v v' : string) (p : Page) :
  applyFilter tc v (applyFilter tc' v' p) = applyFilter tc v p.
Proof.
  rewrite (applyFilter_eq tc v (applyFilter tc' v' p)).
  rewrite applyFilter_languageFilters.
  rewrite (applyFilter_eq tc' v' p). cbn [cards sections emptyState totalCountLabel].
  rewrite (applyFilter_eq tc v p).
  set (q := queryOf v). set (S := selectedLanguages (languageFilters p)).
  set (f := λ c, set_card_hidden (negb (isVisible q S c)) c).
  set (f' := λ c, set_card_hidden (negb (isVisible (queryOf v') S c)) c).
  assert (map f (map f' (cards p)) = map f (cards p)) as Hcs.
  { rewrite <- list_fmap_compose. by apply list_fmap_ext. }
  rewrite Hcs. f_equal.
  - rewrite <- !list_fmap_compose. apply list_fmap_ext.
    intros i s _. apply recompute_section_twice.
  - by destruct (emptyState p).
  - by destruct (totalCountLabel p).
Qed.

(** X7. A recomputation starts from scratch: after two input events in a
    row the page is the one the second event alone gives; nothing of the
    first query is left in any flag or text. *)
Theorem last_input_wins (k : Controller) (v v' : string) :
  handle (handle k (InputEvent v')) (InputEvent v) = handle k (InputEvent v).
Proof. simpl. by rewrite applyFilter_after. Qed.

(** ** The buttons through the life of the page *)

Lemma hidden_alter (f : Button → Button) (a : nat) (bs : list Button) :
  (∀ b, button_hidden (f b) = button_hidden b) →
  button_hidden <$> alter f a bs = button_hidden <$> bs.
Proof.
  intros Hf. rewrite (fmap_alter_at button_hidden f id); [by rewrite list_alter_id|].
  intros x _. apply Hf.
Qed.

Lemma clickButtons_hidden (i : nat) (bs : list Button) :
  button_hidden <$> clickButtons i bs = button_hidden <$> bs.
Proof.
  unfold clickButtons. destruct (bs !! i) as [b|]; [|done].
  destruct (String.eqb _ "").
  - rewrite <- list_fmap_compose. by apply list_fmap_ext.
  - destruct (allButton bs) as [a|].
    + destruct (negb _); by rewrite ?hidden_alter.
    + by rewrite hidden_alter.
Qed.

Lemma handle_hidden (k : Controller) (e : Event) :
  button_hidden <$> languageFilters (page (handle k e))
  = button_hidden <$> languageFilters (page k).
Proof.
  destruct e as [text|i]; simpl.
  - by rewrite applyFilter_languageFilters.
  - by rewrite click_languageFilters, clickButtons_hidden.
Qed.

(** X8. The controller never creates, removes or rewrites an element: after
    the start and any events the cards keep their three texts, the sections
    their cards and totals, the buttons their values, and each optional
    element is there exactly if it was; and once the start has decided which
    buttons are hidden no event changes that. *)
Theorem controller_writes_flags_only (v : string) (p : Page) (events : list Event) :
  layout (page (run (start v p) events)) = layout p
  ∧ button_hidden <$> languageFilters (page (run (start v p) events))
    = button_hidden <$> languageFilters (page (start v p)).
Proof.
  split; [apply run_layout|].
  induction events as [|e events IH] using rev_ind; [done|].
  by rewrite run_snoc, handle_hidden.
Qed.

Lemma in_sync_setButtonPressed (x : bool) (b : Button) :
  in_sync (setButtonPressed x b).
Proof. unfold in_sync. by destruct x. Qed.

Lemma in_sync_availability (av : gset string) (b : Button) :
  in_sync b → in_sync (availability av b).
Proof.
  intros Hb. unfold availability. destruct (String.eqb _ ""); [done|].
  destruct (bool_decide _); [done|]. apply in_sync_setButtonPressed.
Qed.

Lemma in_sync_alter (x : bool) (a : nat) (bs : list Button) :
  Forall in_sync bs → Forall in_sync (alter (setButtonPressed x) a bs).
Proof.
  intros Hbs. apply Forall_alter; [done|]. intros b _ _.
  apply in_sync_setButtonPressed.
Qed.

Lemma availabilityButtons_in_sync (cs : list Card) (bs : list Button) :
  Forall in_sync bs → Forall in_sync (availabilityButtons cs bs).
Proof.
  intros Hbs. unfold availabilityButtons.
  assert (Forall in_sync (map (availability (availableLanguages cs)) bs)) as Hm.
  { apply Forall_fmap. eapply Forall_impl; [done|].
    intros b. apply in_sync_availability. }
  destruct (allButton bs); [|done]. destruct (_ =? 0); [|done].
  by apply in_sync_alter.
Qed.

Lemma clickButtons_in_sync (i : nat) (bs : list Button) :
  Forall in_sync bs → Forall in_sync (clickButtons i bs).
Proof.
  intros Hbs. unfold clickButtons. destruct (bs !! i) as [b|]; [|done].
  destruct (String.eqb _ "").
  - apply Forall_fmap, Forall_true. intros x. apply in_sync_setButtonPressed.
  - assert (Forall in_sync
              (alter (λ b, setButtonPressed (negb (pressed b)) b) i bs)) as H1.
    { apply Forall_alter; [done|]. intros x _ _. apply in_sync_setButtonPressed. }
    destruct (allButton bs) as [a|]; [|done].
    destruct (negb _); repeat apply in_sync_alter; done.
Qed.

(** X9. The [is-active] class follows [aria-pressed]: on a page where the
    two agree on every button, they agree on every button after the start
    and after every event. *)
Theorem class_follows_pressed (v : string) (p : Page) (events : list Event) :
  Forall in_sync (languageFilters p) →
  Forall in_sync (languageFilters (page (run (start v p) events))).
Proof.
  intros Hp. induction events as [|e events IH] using rev_ind.
  - simpl. rewrite applyFilter_languageFilters.
    by apply availabilityButtons_in_sync.
  - rewrite run_snoc. destruct e as [text|i]; simpl.
    + by rewrite applyFilter_languageFilters.
    + rewrite click_languageFilters. by apply clickButtons_in_sync.
Qed.

Lemma demo_in_sync : Forall in_sync (languageFilters demo).
Proof. repeat constructor. Qed.

Lemma class_follows_pressed_witness :
  Forall in_sync
    (languageFilters (page (run (start "a" demo) [ClickEvent 1; InputEvent ""]))).
Proof.
  apply (class_follows_pressed "a" demo [ClickEvent 1; InputEvent ""]).
  exact demo_in_sync.
Defined.

(** ** The availability pass, button by button *)

Lemma availability_all_button (av : gset string) (b : Button) :
  language b = "" → availability av b = set_button_hidden false b.
Proof. intros Hb. unfold availability. by rewrite or_some_empty, Hb. Qed.

Lemma availability_specific (cs : list Card) (b : Button) :
  language b ≠ "" →
  (button_hidden (availability (availableLanguages cs) b) = true
   ↔ unavailable cs (language b))
  ∧ (pressed (availability (availableLanguages cs) b) = true
     ↔ pressed b = true ∧ ¬ unavailable cs (language b)).
Proof.
  intros Hb. rewrite unavailable_spec. unfold availability.
  rewrite or_some_empty.
  destruct (String.eqb _ "") eqn:He.
  { apply eqb_empty in He. by apply (proj1 (toLowerCase_empty _)) in He. }
  destruct (bool_decide _) eqn:Hd; simpl.
  - apply bool_decide_eq_true in Hd. split; split; try done; tauto.
  - apply bool_decide_eq_false in Hd. rewrite pressed_setButtonPressed.
    split; split; try done. by intros [_ []].
Qed.

(** X10. What the availability pass does to each button: an "all" button is
    shown and is not unpressed; a specific button is hidden exactly when its
    lower-cased value is the category of no card, and it is pressed
    afterwards exactly when it was pressed and has cards. *)
Theorem availability_pass_per_button
    (p : Page) (j : nat) (b : Button) :
  languageFilters p !! j = Some b →
  ∃ b', languageFilters (applyLanguageAvailability p) !! j = Some b'
        ∧ language b' = language b
        ∧ (language b = "" →
           button_hidden b' = false ∧ (pressed b = true → pressed b' = true))
        ∧ (language b ≠ "" →
           (button_hidden b' = true ↔ unavailable (cards p) (language b))
           ∧ (pressed b' = true
              ↔ pressed b = true ∧ ¬ unavailable (cards p) (language b))).
Proof.
  intros Hb. unfold applyLanguageAvailability. simpl.
  set (av := availableLanguages (cards p)).
  set (bs := languageFilters p) in *.
  assert (map (availability av) bs !! j = Some (availability av b)) as H1
    by by rewrite list_lookup_fmap, Hb.
  assert (∀ b', b' = availability av b ∨
                (language b = "" ∧ b' = setButtonPressed true (availability av b)) →
          language b' = language b
          ∧ (language b = "" →
             button_hidden b' = false ∧ (pressed b = true → pressed b' = true))
          ∧ (language b ≠ "" →
             (button_hidden b' = true ↔ unavailable (cards p) (language b))
             ∧ (pressed b' = true
                ↔ pressed b = true ∧ ¬ unavailable (cards p) (language b))))
    as Hcases.
  { intros b' [->|[Hl ->]].
    - split; [apply availability_language|]. split.
      + intros Hl. by rewrite availability_all_button.
      + apply availability_specific.
    - split; [apply availability_language|]. split; [|done].
      intros _. by rewrite availability_all_button. }
  unfold availabilityButtons. fold av.
  destruct (allButton bs) as [a|] eqn:Ha; [|eexists; split; [done|]; eauto].
  destruct (_ =? 0); [|eexists; split; [done|]; eauto].
  rewrite list_lookup_alter. destruct (decide (a = j)) as [->|].
  - rewrite H1. simpl. eexists. split; [done|]. apply Hcases. right.
    split; [by apply (allButton_at bs j) | done].
  - eexists. split; [done|]. eauto.
Qed.

Lemma availability_pass_per_button_witness :
  ∃ b', languageFilters (applyLanguageAvailability demo) !! 3 = Some b'
        ∧ language b' = language (filterButton "kotlin" false)
        ∧ (language (filterButton "kotlin" false) = "" →
           button_hidden b' = false
           ∧ (pressed (filterButton "kotlin" false) = true → pressed b' = true))
        ∧ (language (filterButton "kotlin" false) ≠ "" →
           (button_hidden b' = true
            ↔ unavailable (cards demo) (language (filterButton "kotlin" false)))
           ∧ (pressed b' = true
              ↔ pressed (filterButton "kotlin" false) = true
                ∧ ¬ unavailable (cards demo) (language (filterButton "kotlin" false)))).
Proof.
  apply (availability_pass_per_button demo 3 (filterButton "kotlin" false)).
  reflexivity.
Defined.

(** ** The invariant from the start on *)

Lemma pressedSpecific_availability (cs : list Card) (bs : list Button) (j : nat) :
  j ∈ pressedSpecific (map (availability (availableLanguages cs)) bs) →
  j ∈ pressedSpecific bs.
Proof.
  rewrite !elem_of_pressedSpecific, list_lookup_fmap.
  intros (b' & Hb' & Hs). destruct (bs !! j) as [b|]; [|done].
  injection Hb' as <-. exists b. split; [done|].
  apply selecting_spec in Hs as [Hl Hp]. rewrite availability_language in Hl.
  apply selecting_spec. split; [done|].
  by apply (availability_specific cs b Hl) in Hp as [? _].
Qed.

Lemma availabilityButtons_exclusive (cs : list Card) (bs : list Button) :
  is_Some (allButton bs) →
  ¬ (all_pressed bs ∧ specific_pressed bs) →
  exclusive (availabilityButtons cs bs).
Proof.
  intros [a Ha] Hnot. apply exclusive_of_toggle.
  destruct (allButton_Some bs a Ha) as (x & Hx & Hlx).
  unfold availabilityButtons. rewrite Ha.
  set (av := availableLanguages cs). set (bs1 := map (availability av) bs).
  assert (allButton bs1 = Some a) as Ha1.
  { rewrite <- Ha. apply allButton_same_languages, languages_fmap,
      availability_language. }
  assert (bs1 !! a = Some (set_button_hidden false x)) as Hx1.
  { unfold bs1. rewrite list_lookup_fmap, Hx. simpl.
    by rewrite availability_all_button. }
  destruct (size (selectedLanguages bs1) =? 0) eqn:Hz.
  - left. apply Nat.eqb_eq, size_zero, pressedSpecific_empty in Hz.
    unfold toggle_of. cbn [all_on chosen].
    rewrite (allButton_same_languages bs1), Ha1 by by apply languages_alter.
    rewrite pressedSpecific_alter_all, Hz;
      [| intros y Hy; rewrite Hx1 in Hy; by injection Hy as <- | done].
    simpl. by rewrite list_lookup_alter_eq, Hx1.
  - right. apply Nat.eqb_neq in Hz.
    assert (pressedSpecific bs1 ≠ ∅) as Hne.
    { intros He. apply Hz, size_zero. by apply pressedSpecific_empty. }
    unfold toggle_of. cbn [all_on chosen]. rewrite Ha1. simpl. rewrite Hx1.
    split; [|done]. simpl. intros [= Hp]. apply Hnot. split.
    + by exists a, x.
    + apply specific_pressed_toggle. simpl.
      apply set_choose_L in Hne as [j Hj].
      apply pressedSpecific_availability in Hj. intros He.
      rewrite He in Hj. by apply not_elem_of_empty in Hj.
Qed.

(** X11. The availability pass sets the invariant up: in a group with an
    "all" button where "all" and a specific button are not both pressed (in
    particular where nothing is pressed yet), after the pass exactly one of
    the two holds: "all" alone is pressed, or some specific button is and
    "all" is not. *)
Theorem availability_pass_exclusive (p : Page) :
  is_Some (allButton (languageFilters p)) →
  ¬ (all_pressed (languageFilters p) ∧ specific_pressed (languageFilters p)) →
  exclusive (languageFilters (applyLanguageAvailability p)).
Proof. intros Hall Hnot. by apply availabilityButtons_exclusive. Qed.

Lemma demo_not_both :
  ¬ (all_pressed (languageFilters demo) ∧ specific_pressed (languageFilters demo)).
Proof.
  intros [_ (i & b & Hb & Hl & Hp)].
  destruct i as [|[|[|[|i]]]]; simpl in Hb; try done; by injection Hb as <-.
Qed.

Lemma availability_pass_exclusive_witness :
  exclusive (languageFilters (applyLanguageAvailability demo)).
Proof.
  apply (availability_pass_exclusive demo); [by exists 0 | exact demo_not_both].
Defined.

Lemma run_allButton (v : string) (p : Page) (events : list Event) :
  allButton (languageFilters (page (run (start v p) events)))
  = allButton (languageFilters p).
Proof. apply allButton_same_languages, run_languages. Qed.

(** X12. From a start as in X11 the invariant holds for good: after the
    start and after every input or click event exactly one of the two
    holds. *)
Theorem exclusive_throughout (v : string) (p : Page) (events : list Event) :
  is_Some (allButton (languageFilters p)) →
  ¬ (all_pressed (languageFilters p) ∧ specific_pressed (languageFilters p)) →
  exclusive (languageFilters (page (run (start v p) events))).
Proof.
  intros Hall Hnot. induction events as [|e events IH] using rev_ind.
  - simpl. rewrite applyFilter_languageFilters.
    by apply availabilityButtons_exclusive.
  - rewrite run_snoc. destruct e as [text|i]; simpl.
    + by rewrite applyFilter_languageFilters.
    + rewrite click_languageFilters.
      set (bs := languageFilters (page (run (start v p) events))) in *.
      destruct (decide (i < length bs)) as [Hi|Hi].
      * apply clickButtons_exclusive; [|done]. unfold bs. by rewrite run_allButton.
      * unfold clickButtons. rewrite lookup_ge_None_2 by lia. done.
Qed.

Lemma exclusive_throughout_witness :
  exclusive (languageFilters
               (page (run (start "" demo) [ClickEvent 1; ClickEvent 2; ClickEvent 1]))).
Proof.
  apply (exclusive_throughout "" demo [ClickEvent 1; ClickEvent 2; ClickEvent 1]);
    [by exists 0 | exact demo_not_both].
Defined.

(** ** Values are compared as written *)

Lemma cardLanguage_lower (c : Card) :
  Js.toLowerCase (cardLanguage c) = cardLanguage c.
Proof. unfold cardLanguage. apply toLowerCase_idem. Qed.

(** X13. The selected set holds the buttons' values as written, while a
    card's category is lower-cased before the comparison: if some button is
    selected and every selected button has a value that is not in lower
    case, a recomputation hides every card, whatever is typed. *)
Theorem capitalised_selection_hides_all (tc : nat) (v : string) (p : Page) :
  (∃ b, b ∈ languageFilters p ∧ language b ≠ "" ∧ pressed b = true) →
  (∀ b, b ∈ languageFilters p → language b ≠ "" → pressed b = true →
        Js.toLowerCase (language b) ≠ language b) →
  Forall (λ c, card_hidden c = true) (cards (applyFilter tc v p)).
Proof.
  intros (b0 & Hb0 & Hl0 & Hp0) Hcap.
  rewrite applyFilter_cards, filterCards_cards.
  apply Forall_fmap, Forall_true. intros c. simpl.
  apply negb_true_iff, not_true_iff_false. rewrite isVisible_spec.
  intros [_ [He|Hin]].
  - assert (language b0 ∈ selectedLanguages (languageFilters p)) as Hsel.
    { apply elem_of_selectedLanguages. exists b0.
      split_and!; [done | by apply selecting_spec | done]. }
    rewrite He in Hsel. by apply not_elem_of_empty in Hsel.
  - rewrite <- or_unknown in Hin. fold (cardLanguage c) in Hin.
    apply elem_of_selectedLanguages in Hin as (b & Hb & Hs & Hl).
    apply selecting_spec in Hs as [Hne Hp].
    apply (Hcap b Hb Hne Hp). rewrite Hl. apply cardLanguage_lower.
Qed.

Lemma capitalised_selection_hides_all_witness :
  Forall (λ c, card_hidden c = true)
    (cards (applyFilter 2 ""
       (set_languageFilters [filterButton "" false; filterButton "Rust" true] demo))).
Proof.
  apply (capitalised_selection_hides_all 2 ""
           (set_languageFilters [filterButton "" false; filterButton "Rust" true] demo)).
  - exists (filterButton "Rust" true). split_and!; [by right; left | done | done].
  - intros b Hb Hl Hp. simpl in Hb.
    apply elem_of_cons in Hb as [->|Hb]; [done|].
    apply elem_of_cons in Hb as [->|Hb]; [done|].
    by apply not_elem_of_nil in Hb.
Defined.

(** ** Clicks in a row *)

Lemma selectedLanguages_by_position (bs : list Button) (l : string) :
  l ∈ selectedLanguages bs
  ↔ ∃ j, j ∈ pressedSpecific bs ∧ (language <$> bs) !! j = Some l.
Proof.
  rewrite elem_of_selectedLanguages. split.
  - intros (b & Hb & Hs & <-). apply list_elem_of_lookup in Hb as [j Hj].
    exists j. split; [apply elem_of_pressedSpecific; eauto|].
    by rewrite list_lookup_fmap, Hj.
  - intros (j & Hj & Hl). apply elem_of_pressedSpecific in Hj as (b & Hb & Hs).
    rewrite list_lookup_fmap, Hb in Hl. injection Hl as <-.
    exists b. split_and!; [|done..]. apply list_elem_of_lookup. eauto.
Qed.

Lemma selectedLanguages_determined (bs bs' : list Button) :
  language <$> bs' = language <$> bs →
  pressedSpecific bs' = pressedSpecific bs →
  selectedLanguages bs' = selectedLanguages bs.
Proof.
  intros Hl Hp. apply set_eq. intros l.
  by rewrite !selectedLanguages_by_position, Hl, Hp.
Qed.

Lemma chosen_spec_click (i : nat) (t : Toggle) :
  chosen (spec_click (SpecificButton i) t) = chosen (flip i t).
Proof. simpl. by destruct (decide _). Qed.

Lemma chosen_flip_flip (i : nat) (t : Toggle) (t' : Toggle) :
  chosen t' = chosen (flip i t) → chosen (flip i t') = chosen t.
Proof.
  simpl. intros ->. apply set_eq. intros j.
  destruct (decide (i ∈ chosen t)) as [Hi|Hi].
  - rewrite decide_False
      by (rewrite elem_of_difference, elem_of_singleton; by intros [_ []]).
    rewrite elem_of_union, elem_of_difference, elem_of_singleton.
    destruct (decide (j = i)) as [->|]; [tauto|]. split; [by intros [[? _]|?] | eauto].
  - rewrite decide_True
      by (rewrite elem_of_union, elem_of_singleton; by right).
    rewrite elem_of_difference, elem_of_union, elem_of_singleton.
    split; [by intros [[?|?] ?] | intros Hj; split; [by left | congruence]].
Qed.

Lemma clickButtons_twice_chosen (i : nat) (b : Button) (bs : list Button) :
  bs !! i = Some b → language b ≠ "" →
  pressedSpecific (clickButtons i (clickButtons i bs)) = pressedSpecific bs.
Proof.
  intros Hb Hl.
  assert ((language <$> clickButtons i bs) !! i = Some (language b)) as Hb1
    by by rewrite clickButtons_languages, list_lookup_fmap, Hb.
  apply list_lookup_fmap_Some in Hb1 as (b1 & Hl1 & Hb1).
  pose proof (clickButtons_toggle i b bs Hb) as H1.
  pose proof (clickButtons_toggle i b1 (clickButtons i bs) Hb1) as H2.
  unfold target_of in H1, H2. rewrite <- Hl1 in H2.
  rewrite decide_False in H1, H2 by done.
  change (pressedSpecific (clickButtons i (clickButtons i bs)))
    with (chosen (toggle_of (clickButtons i (clickButtons i bs)))).
  rewrite H2, chosen_spec_click.
  apply (chosen_flip_flip i (toggle_of bs)). by rewrite H1, chosen_spec_click.
Qed.

(** The recomputation reads the buttons through the selected set only, and
    nothing of an earlier recomputation. *)
Lemma applyFilter_after_buttons
    (tc tc' : nat) (v v' : string) (bs bs' : list Button) (p : Page) :
  selectedLanguages bs = selectedLanguages (languageFilters p) →
  set_languageFilters (languageFilters p)
    (applyFilter tc v
       (set_languageFilters bs (applyFilter tc' v' (set_languageFilters bs' p))))
  = applyFilter tc v p.
Proof.
  intros HS.
  rewrite (applyFilter_eq tc v (set_languageFilters bs _)).
  cbn [languageFilters set_languageFilters cards sections emptyState totalCountLabel].
  rewrite HS, (applyFilter_eq tc' v' (set_languageFilters bs' p)).
  cbn [languageFilters set_languageFilters cards sections emptyState totalCountLabel].
  rewrite (applyFilter_eq tc v p). unfold set_languageFilters. simpl.
  set (q := queryOf v). set (S := selectedLanguages (languageFilters p)).
  set (f := λ c, set_card_hidden (negb (isVisible q S c)) c).
  set (f' := λ c, set_card_hidden
                    (negb (isVisible (queryOf v') (selectedLanguages bs') c)) c).
  assert (map f (map f' (cards p)) = map f (cards p)) as Hcs.
  { rewrite <- list_fmap_compose. by apply list_fmap_ext. }
  rewrite Hcs. f_equal.
  - rewrite <- !list_fmap_compose. apply list_fmap_ext.
    intros i s _. apply recompute_section_twice.
  - by destruct (emptyState p).
  - by destruct (totalCountLabel p).
Qed.

(** X14. Two clicks on the same specific button undo each other: the
    selected set is the one before them, and every card, section, summary
    and the "no results" element is as a recomputation from the earlier
    buttons leaves it. *)
Theorem double_click_restores
    (tc : nat) (v : string) (i : nat) (b : Button) (p : Page) :
  languageFilters p !! i = Some b →
  language b ≠ "" →
  let twice := click tc v i (click tc v i p) in
  selectedLanguages (languageFilters twice) = selectedLanguages (languageFilters p)
  ∧ set_languageFilters (languageFilters p) twice = applyFilter tc v p.
Proof.
  intros Hb Hl twice.
  set (bs := languageFilters p) in *.
  assert (selectedLanguages (clickButtons i (clickButtons i bs))
          = selectedLanguages bs) as HS.
  { apply selectedLanguages_determined.
    - by rewrite !clickButtons_languages.
    - by apply (clickButtons_twice_chosen i b). }
  assert (is_Some (clickButtons i bs !! i)) as [b1 Hb1].
  { apply lookup_lt_is_Some. rewrite <- (length_fmap language).
    rewrite clickButtons_languages, length_fmap. by apply lookup_lt_Some in Hb. }
  split; [unfold twice; by rewrite !click_languageFilters|].
  assert (click tc v i p
          = applyFilter tc v (set_languageFilters (clickButtons i bs) p)) as H1
    by (unfold click; fold bs; by rewrite Hb).
  unfold twice. rewrite H1. unfold click.
  rewrite applyFilter_languageFilters. cbn [languageFilters set_languageFilters].
  rewrite Hb1. by apply applyFilter_after_buttons.
Qed.

Lemma double_click_restores_witness :
  let twice := click 2 "a" 2 (click 2 "a" 2 demo) in
  selectedLanguages (languageFilters twice) = selectedLanguages (languageFilters demo)
  ∧ set_languageFilters (languageFilters demo) twice = applyFilter 2 "a" demo.
Proof.
  apply (double_click_restores 2 "a" 2 (filterButton "go" false) demo); done.
Defined.

Lemma clickButtons_all_selects_nothing (i : nat) (b : Button) (bs : list Button) :
  bs !! i = Some b → language b = "" → selectedLanguages (clickButtons i bs) = ∅.
Proof.
  intros Hb Hl. apply pressedSpecific_empty.
  change (pressedSpecific (clickButtons i bs))
    with (chosen (toggle_of (clickButtons i bs))).
  rewrite (clickButtons_toggle i b) by done. unfold target_of.
  by rewrite decide_True.
Qed.

(** X15. A click on the "all" button lifts the language filter: the
    selected set is empty afterwards, every card that matches what is typed
    is shown, and with nothing typed every card and every section is shown
    and the "no results" element is hidden. *)
Theorem click_all_lifts_filter
    (tc : nat) (v : string) (i : nat) (b : Button) (p : Page) :
  languageFilters p !! i = Some b →
  language b = "" →
  let now := click tc v i p in
  selectedLanguages (languageFilters now) = ∅
  ∧ (∀ j c, cards p !! j = Some c →
       ∃ c', cards now !! j = Some c'
             ∧ (card_hidden c' = false ↔ query_matches (queryOf v) c))
  ∧ (queryOf v = "" →
     Forall (λ c, card_hidden c = false) (cards now)
     ∧ Forall (λ s, section_hidden s = false) (sections now)
     ∧ emptyState now = const true <$> emptyState p).
Proof.
  intros Hb Hl now.
  assert (selectedLanguages (clickButtons i (languageFilters p)) = ∅) as HS
    by by apply (clickButtons_all_selects_nothing i b).
  assert (now = applyFilter tc v
                  (set_languageFilters (clickButtons i (languageFilters p)) p))
    as -> by (unfold now, click; by rewrite Hb).
  split_and!.
  - by rewrite applyFilter_languageFilters.
  - intros j c Hc. rewrite applyFilter_card_lookup. simpl. rewrite Hc. simpl.
    eexists. split; [done|]. simpl. rewrite negb_false_iff, isVisible_spec, HS.
    split; [by intros [? _] | intros ?; split; [done | by left]].
  - intros Hq.
    destruct (applyFilter_unfiltered tc v
                (set_languageFilters (clickButtons i (languageFilters p)) p) Hq HS)
      as (H1 & H2 & H3 & _).
    done.
Qed.

Lemma click_all_lifts_filter_witness :
  let now := click 2 " " 0 (click 2 " " 1 demo) in
  selectedLanguages (languageFilters now) = ∅
  ∧ (∀ j c, cards (click 2 " " 1 demo) !! j = Some c →
       ∃ c', cards now !! j = Some c'
             ∧ (card_hidden c' = false ↔ query_matches (queryOf " ") c))
  ∧ (queryOf " " = "" →
     Forall (λ c, card_hidden c = false) (cards now)
     ∧ Forall (λ s, section_hidden s = false) (sections now)
     ∧ emptyState now = const true <$> emptyState (click 2 " " 1 demo)).
Proof.
  apply (click_all_lifts_filter 2 " " 0 (setButtonPressed false (filterButton "" true))
           (click 2 " " 1 demo)); done.
Defined.

(** ** The simple script *)

Lemma simple_applyFilter_eq (v : string) (p : Page) :
  let q := queryOf v in
  let cs := map (λ c, set_card_hidden (negb (isVisible q ∅ c)) c) (cards p) in
  Simple.applyFilter v p
  = {| cards := cs;
       sections := map (Simple.filterSection q cs) (sections p);
       emptyState :=
         (λ _, String.eqb q "" || (0 <? visible_count cs)) <$> emptyState p;
       totalCountLabel := totalCountLabel p;
       languageFilters := languageFilters p |}.
Proof.
  intros q cs. unfold Simple.applyFilter. fold q.
  rewrite simple_filterCards.
  pose proof (filterCards_cards q ∅ (cards p) 0) as Hc.
  pose proof (filterCards_count q ∅ (cards p) 0) as Hn.
  destruct (filterCards q ∅ (cards p) 0) as [cs' n]. simpl in Hc, Hn.
  subst cs'. fold cs in Hn |- *. unfold visible_count. by rewrite Hn.
Qed.

Lemma isVisible_no_language (q : string) (c : Card) :
  isVisible q ∅ c = true ↔ query_matches q c.
Proof.
  rewrite isVisible_spec. split; [by intros [? _] | intros ?; split; [done | by left]].
Qed.

Lemma simple_filterSection_hidden (q : string) (cs : list Card) (s : Section) :
  section_hidden (Simple.filterSection q cs s) = false
  ↔ q = "" ∨ has_shown_card cs s ∨ has_shown_stray s.
Proof.
  rewrite simple_filterSection, filterSection_hidden, orb_false_r.
  by rewrite negb_false_iff, eqb_empty.
Qed.

(** X16. The simple script shows a card exactly when the query is empty or
    occurs in the lower-cased "name language description" of the card, and
    leaves the card's texts alone. *)
Theorem simple_card_visible (v : string) (p : Page) (i : nat) (c : Card) :
  cards p !! i = Some c →
  ∃ c', cards (Simple.applyFilter v p) !! i = Some c'
        ∧ same_card c c'
        ∧ (card_hidden c' = false ↔ query_matches (queryOf v) c).
Proof.
  intros Hc. rewrite simple_applyFilter_eq. simpl.
  eexists. split; [by rewrite list_lookup_fmap, Hc|].
  split; [done|]. simpl. by rewrite negb_false_iff, isVisible_no_language.
Qed.

Lemma simple_card_visible_witness :
  ∃ c', cards (Simple.applyFilter "Serv" demo) !! 1 = Some c'
        ∧ same_card beta c'
        ∧ (card_hidden c' = false ↔ query_matches (queryOf "Serv") beta).
Proof. apply (simple_card_visible "Serv" demo 1 beta). reflexivity. Defined.

(** X17. In the simple script every section is shown while the query is
    empty, and otherwise exactly the sections are that hold a [.repo-card]
    element that is not hidden: a card that is shown, or an element outside
    the card collection; the "no results" element is shown exactly when
    the query is not empty and no card is shown; summaries and buttons are
    not touched. *)
Theorem simple_sections_and_empty_state (v : string) (p : Page) :
  let now := Simple.applyFilter v p in
  (∀ j s, sections p !! j = Some s →
     ∃ s', sections now !! j = Some s'
           ∧ members s' = members s ∧ strays s' = strays s
           ∧ sectionCount s' = sectionCount s
           ∧ (section_hidden s' = false
              ↔ queryOf v = "" ∨ has_shown_card (cards now) s
                ∨ has_shown_stray s))
  ∧ (∀ h, emptyState p = Some h →
     ∃ h', emptyState now = Some h'
           ∧ (h' = false ↔ queryOf v ≠ "" ∧ visible_count (cards now) = 0))
  ∧ totalCountLabel now = totalCountLabel p
  ∧ languageFilters now = languageFilters p.
Proof.
  intros now. unfold now. rewrite simple_applyFilter_eq. simpl.
  split_and!; [| |done..].
  - intros j s Hs. eexists. split; [by rewrite list_lookup_fmap, Hs|]. simpl.
    rewrite simple_filterSection_hidden.
    split_and!; [| | |done]; unfold Simple.filterSection;
      by destruct (String.eqb _ "").
  - intros h Hh. rewrite Hh. simpl. eexists. split; [done|].
    rewrite orb_false_iff, <- not_true_iff_false, eqb_empty, Nat.ltb_ge.
    split; (intros [? ?]; split; [done | lia]).
Qed.

(** X18. With no language selected the extended script filters as the
    simple one does: the same cards, the same section flags and the same
    state of the "no results" element. *)
Theorem extended_agrees_with_simple (tc : nat) (v : string) (p : Page) :
  selectedLanguages (languageFilters p) = ∅ →
  cards (applyFilter tc v p) = cards (Simple.applyFilter v p)
  ∧ section_hidden <$> sections (applyFilter tc v p)
    = section_hidden <$> sections (Simple.applyFilter v p)
  ∧ emptyState (applyFilter tc v p) = emptyState (Simple.applyFilter v p).
Proof.
  intros HS. rewrite applyFilter_eq, simple_applyFilter_eq, HS. simpl.
  change (0 <? size (∅ : gset string)) with false.
  split_and!; [done | |].
  - rewrite <- !list_fmap_compose. apply list_fmap_ext. intros j s _. simpl.
    by rewrite countSection_hidden, simple_filterSection.
  - destruct (emptyState p); [|done]. simpl. by destruct (String.eqb _ "").
Qed.

Lemma extended_agrees_with_simple_witness :
  cards (applyFilter 2 "go" demo) = cards (Simple.applyFilter "go" demo)
  ∧ section_hidden <$> sections (applyFilter 2 "go" demo)
    = section_hidden <$> sections (Simple.applyFilter "go" demo)
  ∧ emptyState (applyFilter 2 "go" demo) = emptyState (Simple.applyFilter "go" demo).
Proof. apply (extended_agrees_with_simple 2 "go" demo). reflexivity. Defined.

(** ** Totals written as decimal numbers *)

Lemma pretty_char_digit (m : N) :
  (m < 10)%N →
  Js.digit (pretty_N_char m) = Some (Z.of_N m)
  ∧ Js.isWhiteSpace (pretty_N_char m) = false
  ∧ pretty_N_char m ≠ "-"%char ∧ pretty_N_char m ≠ "+"%char.
Proof.
  intros Hm. rewrite <- (N2Nat.id m).
  assert (N.to_nat m < 10) as Hk by lia.
  destruct (N.to_nat m) as [|k]; [by split_and!|].
  do 9 (destruct k as [|k]; [by split_and!|]). lia.
Qed.

Lemma digits_pretty_go (x : N) (s : string) (seen : bool) :
  (0 < x)%N →
  Js.digits (pretty_N_go x s) 0 seen = Js.digits s (Z.of_N x) true.
Proof.
  revert s seen. induction (N.lt_wf_0 x) as [x _ IH]. intros s seen Hx.
  rewrite pretty_N_go_step by done.
  assert (x `mod` 10 < 10)%N as Hm by (apply N.mod_lt; lia).
  destruct (pretty_char_digit _ Hm) as (Hd & _).
  assert (Z.of_N x = 10 * Z.of_N (x `div` 10) + Z.of_N (x `mod` 10))%Z as Hx10.
  { rewrite <- (N2Z.inj_mul 10), <- N2Z.inj_add. f_equal. apply N.div_mod. lia. }
  destruct (decide (x `div` 10 = 0)%N) as [H0|H0].
  - rewrite H0, pretty_N_go_0. simpl. rewrite Hd. rewrite Hx10, H0. done.
  - rewrite IH; [| apply N.div_lt; lia | by apply N.neq_0_lt_0].
    simpl. by rewrite Hd, Hx10.
Qed.

Lemma pretty_go_head (x : N) (s : string) :
  (0 < x)%N →
  ∃ m r, (m < 10)%N ∧ pretty_N_go x s = String (pretty_N_char m) r.
Proof.
  revert s. induction (N.lt_wf_0 x) as [x _ IH]. intros s Hx.
  rewrite pretty_N_go_step by done.
  destruct (decide (x `div` 10 = 0)%N) as [H0|H0].
  - rewrite H0, pretty_N_go_0. eexists _, _. split; [|done]. apply N.mod_lt. lia.
  - apply IH; [apply N.div_lt; lia | by apply N.neq_0_lt_0].
Qed.

Lemma parseInt_digits (c : ascii) (r : string) :
  Js.isWhiteSpace c = false → c ≠ "-"%char → c ≠ "+"%char →
  Js.parseInt (String c r)
  = match Js.digits (String c r) 0 false with
    | (n, true) => Js.toNumber (1 * n)
    | (_, false) => Js.NaN
    end.
Proof.
  intros Hw Hm Hp. unfold Js.parseInt. simpl Js.trimStart. rewrite Hw.
  destruct c as [[] [] [] [] [] [] [] []]; try done.
Qed.

(** Below [2^53] every natural number is a double. *)
Lemma roundDouble_small (m : Z) : (0 ≤ m < 2 ^ 53)%Z → Js.roundDouble m = m.
Proof.
  intros [H0 H1]. unfold Js.roundDouble.
  assert (Z.log2 m + 1 ≤ 53)%Z as Hbits.
  { destruct (decide (m = 0%Z)) as [->|Hm]; [done|].
    assert (Z.log2 m < 53)%Z by (apply Z.log2_lt_pow2; lia). lia. }
  apply Z.leb_le in Hbits. by rewrite Hbits.
Qed.

Lemma toNumber_small (z : Z) : (0 ≤ z < 2 ^ 53)%Z → Js.toNumber z = Js.Int z.
Proof.
  intros Hz. unfold Js.toNumber. rewrite Z.abs_eq, roundDouble_small by lia.
  assert ((2 ^ 1024 <=? z)%Z = false) as ->.
  { apply Z.leb_gt. eapply Z.lt_trans; [apply Hz | reflexivity]. }
  f_equal. destruct z; [done | done | lia].
Qed.

Lemma parseInt_pretty_N (x : N) :
  (Z.of_N x < 2 ^ 53)%Z → Js.parseInt (pretty x) = Js.Int (Z.of_N x).
Proof.
  intros Hb. unfold pretty, pretty_N.
  destruct (decide (x = 0)%N) as [->|Hx]; [done|].
  destruct (pretty_go_head x "") as (m & r & Hm & Hhead); [lia|].
  destruct (pretty_char_digit m Hm) as (_ & Hw & Hminus & Hplus).
  rewrite Hhead, parseInt_digits, <- Hhead by done.
  rewrite digits_pretty_go by lia. cbn [Js.digits].
  replace (1 * Z.of_N x)%Z with (Z.of_N x) by lia.
  apply toNumber_small. lia.
Qed.

Lemma pretty_N_truthy (x : N) : Js.truthy (pretty x) = true.
Proof.
  unfold pretty, pretty_N. destruct (decide (x = 0)%N) as [->|Hx]; [done|].
  destruct (pretty_go_head x "") as (m & r & _ & ->); [lia | done].
Qed.

Lemma numberToString_nat (n : nat) :
  (Z.of_nat n < 2 ^ 53)%Z →
  Js.numberToString (Js.Int (Z.of_nat n)) = pretty n.
Proof.
  intros Hb. unfold Js.numberToString, Js.renderDouble.
  assert ((Z.of_nat n <? 0)%Z = false) as -> by (apply Z.ltb_ge; lia).
  apply Z.ltb_lt in Hb. rewrite Hb. by destruct n.
Qed.

Lemma section_total_decimal (sc : SectionCount) (n : nat) :
  (Z.of_nat n < 2 ^ 53)%Z →
  data_total sc = Some (pretty n) →
  Js.numberToString (section_total sc) = pretty n.
Proof.
  intros Hb Hn. unfold section_total. rewrite Hn. simpl.
  unfold pretty at 1 2, pretty_nat.
  rewrite pretty_N_truthy, parseInt_pretty_N by (by rewrite nat_N_Z).
  rewrite nat_N_Z. by apply numberToString_nat.
Qed.

Lemma section_total_missing (sc : SectionCount) :
  data_total sc = None ∨ data_total sc = Some "" →
  Js.numberToString (section_total sc) = "0".
Proof. unfold section_total. by intros [->| ->]. Qed.

Lemma applyFilter_section_text
    (tc : nat) (v : string) (p : Page) (j : nat) (s : Section) (sc : SectionCount) :
  sections p !! j = Some s → sectionCount s = Some sc →
  ∃ s' sc', sections (applyFilter tc v p) !! j = Some s'
            ∧ sectionCount s' = Some sc'
            ∧ count_text sc'
              = section_summary (section_repo_cards (cards (applyFilter tc v p)) s)
                  (section_total sc).
Proof.
  intros Hs Hsc. rewrite applyFilter_sections, !list_lookup_fmap, Hs. simpl.
  destruct s as [ms st h o]. simpl in Hsc. subst o.
  rewrite <- visibleRepoCards_count.
  eexists _, _. split; [done|]. by destruct (negb _ || _).
Qed.

(** X19. A section total written as a decimal number below [2^53] comes
    back as written: when [data-total] is the decimal text of such an [n],
    the section summary after a recomputation reads "Repositories: v/n",
    [v] being the number of the section's [.repo-card] elements that are
    not hidden.  (From [2^53] on the total is rounded to a double and may
    come back changed, see [large_totals] below.) *)
Theorem section_total_round_trip
    (tc : nat) (v : string) (p : Page) (j : nat) (s : Section)
    (sc : SectionCount) (n : nat) :
  sections p !! j = Some s →
  sectionCount s = Some sc →
  (Z.of_nat n < 2 ^ 53)%Z →
  data_total sc = Some (pretty n) →
  ∃ s' sc', sections (applyFilter tc v p) !! j = Some s'
            ∧ sectionCount s' = Some sc'
            ∧ count_text sc'
              = "Repositories: "
                  +:+ pretty (section_repo_cards (cards (applyFilter tc v p)) s)
                  +:+ "/" +:+ pretty n.
Proof.
  intros Hs Hsc Hb Hn.
  destruct (applyFilter_section_text tc v p j s sc Hs Hsc) as (s' & sc' & H1 & H2 & H3).
  exists s', sc'. split_and!; [done..|].
  rewrite H3. unfold section_summary. by rewrite (section_total_decimal sc n).
Qed.

Lemma section_total_round_trip_witness :
  ∃ s' sc', sections (applyFilter 2 "go" demo) !! 1 = Some s'
            ∧ sectionCount s' = Some sc'
            ∧ count_text sc'
              = "Repositories: "
                  +:+ pretty (section_repo_cards (cards (applyFilter 2 "go" demo))
                                (group [1] "1"))
                  +:+ "/" +:+ pretty 1.
Proof.
  apply (section_total_round_trip 2 "go" demo 1 (group [1] "1")
           {| data_total := Some "1"; count_text := "" |} 1); reflexivity.
Defined.

(** Totals from [2^53] on: the text is parsed to the nearest double and
    written back as the shortest decimal that names that double, with an
    exponent from 22 digits on. *)
Example large_totals :
  Js.numberToString (Js.parseInt "9007199254740992") = "9007199254740992"
  ∧ Js.numberToString (Js.parseInt "9007199254740993") = "9007199254740992"
  ∧ Js.numberToString (Js.parseInt "18446744073709551616") = "18446744073709552000"
  ∧ Js.numberToString (Js.parseInt "1000000000000000000000") = "1e+21"
  ∧ Js.numberToString (Js.parseInt "1234567890123456789012")
    = "1.2345678901234568e+21".
Proof. by vm_compute. Qed.

(** X20. A section summary without a usable total counts against zero: when
    [data-total] is missing or empty, the summary after a recomputation
    reads "Repositories: v/0", [v] being the number of the section's
    [.repo-card] elements that are not hidden. *)
Theorem section_total_defaults_to_zero
    (tc : nat) (v : string) (p : Page) (j : nat) (s : Section) (sc : SectionCount) :
  sections p !! j = Some s →
  sectionCount s = Some sc →
  data_total sc = None ∨ data_total sc = Some "" →
  ∃ s' sc', sections (applyFilter tc v p) !! j = Some s'
            ∧ sectionCount s' = Some sc'
            ∧ count_text sc'
              = "Repositories: "
                  +:+ pretty (section_repo_cards (cards (applyFilter tc v p)) s)
                  +:+ "/0".
Proof.
  intros Hs Hsc Hn.
  destruct (applyFilter_section_text tc v p j s sc Hs Hsc) as (s' & sc' & H1 & H2 & H3).
  exists s', sc'. split_and!; [done..|].
  rewrite H3. unfold section_summary. by rewrite (section_total_missing sc).
Qed.

Lemma section_total_defaults_to_zero_witness :
  ∃ s' sc', sections (applyFilter 1 "" untotalled) !! 0 = Some s'
            ∧ sectionCount s' = Some sc'
            ∧ count_text sc'
              = "Repositories: "
                  +:+ pretty (section_repo_cards (cards (applyFilter 1 "" untotalled))
                                {| members := [0]; strays := []; section_hidden := false;
                                   sectionCount :=
                                     Some {| data_total := None; count_text := "" |} |})
                  +:+ "/0".
Proof.
  apply (section_total_defaults_to_zero 1 "" untotalled 0
           {| members := [0]; strays := []; section_hidden := false;
              sectionCount := Some {| data_total := None; count_text := "" |} |}
           {| data_total := None; count_text := "" |}); [done | done | by left].
Defined.

(** ** Pressing one more button *)

Lemma clickButtons_chosen (i : nat) (b : Button) (bs : list Button) :
  bs !! i = Some b → language b ≠ "" →
  pressedSpecific (clickButtons i bs) = chosen (flip i (toggle_of bs)).
Proof.
  intros Hb Hl.
  change (pressedSpecific (clickButtons i bs))
    with (chosen (toggle_of (clickButtons i bs))).
  rewrite (clickButtons_toggle i b) by done. unfold target_of.
  rewrite decide_False by done. apply chosen_spec_click.
Qed.

Lemma clickButtons_press_adds (i : nat) (b : Button) (bs : list Button) :
  bs !! i = Some b → language b ≠ "" → pressed b = false →
  selectedLanguages (clickButtons i bs) = selectedLanguages bs ∪ {[language b]}.
Proof.
  intros Hb Hl Hp.
  assert (i ∉ pressedSpecific bs) as Hi.
  { intros (b' & Hb' & Hs)%elem_of_pressedSpecific.
    apply selecting_spec in Hs as [_ Hs]. congruence. }
  apply set_eq. intros l.
  rewrite elem_of_union, elem_of_singleton, !selectedLanguages_by_position.
  rewrite clickButtons_languages, (clickButtons_chosen i b) by done.
  simpl. rewrite decide_False by done. split.
  - intros (j & [Hj| ->%elem_of_singleton]%elem_of_union & Hlj); [left; eauto|].
    right. rewrite list_lookup_fmap, Hb in Hlj. by injection Hlj.
  - intros [(j & Hj & Hlj)| ->].
    + exists j. split; [by apply elem_of_union; left | done].
    + exists i. split; [by apply elem_of_union; right; apply elem_of_singleton|].
      by rewrite list_lookup_fmap, Hb.
Qed.

(** X21. Pressing one more language widens the filter: a click on a
    specific button that is not pressed adds its value to the selected set,
    and afterwards a card is shown exactly when it matches what is typed and
    its lower-cased category is that value or one selected before. *)
Theorem click_adds_language
    (tc : nat) (v : string) (i : nat) (b : Button) (p : Page) :
  languageFilters p !! i = Some b →
  language b ≠ "" →
  pressed b = false →
  let now := click tc v i p in
  selectedLanguages (languageFilters now)
  = selectedLanguages (languageFilters p) ∪ {[language b]}
  ∧ (∀ j c, cards p !! j = Some c →
       ∃ c', cards now !! j = Some c'
             ∧ (card_hidden c' = false
                ↔ query_matches (queryOf v) c
                  ∧ (Js.toLowerCase (category c) = language b
                     ∨ Js.toLowerCase (category c)
                       ∈ selectedLanguages (languageFilters p)))).
Proof.
  intros Hb Hl Hp now.
  pose proof (clickButtons_press_adds i b (languageFilters p) Hb Hl Hp) as HS.
  assert (now = applyFilter tc v
                  (set_languageFilters (clickButtons i (languageFilters p)) p))
    as -> by (unfold now, click; by rewrite Hb).
  split; [by rewrite applyFilter_languageFilters|].
  intros j c Hc. rewrite applyFilter_card_lookup. simpl. rewrite Hc. simpl.
  eexists. split; [done|]. simpl. rewrite negb_false_iff, isVisible_spec, HS.
  unfold language_matches. rewrite elem_of_union, elem_of_singleton.
  split; intros [Hq HL]; (split; [done|]).
  - destruct HL as [He|[?|?]]; [|by right|by left].
    exfalso. assert (language b ∈ (∅ : gset string)) as Hin
      by (rewrite <- He; apply elem_of_union; right; by apply elem_of_singleton).
    by apply not_elem_of_empty in Hin.
  - right. tauto.
Qed.

Lemma click_adds_language_witness :
  let now := click 2 "" 2 demo in
  selectedLanguages (languageFilters now)
  = selectedLanguages (languageFilters demo) ∪ {[language (filterButton "go" false)]}
  ∧ (∀ j c, cards demo !! j = Some c →
       ∃ c', cards now !! j = Some c'
             ∧ (card_hidden c' = false
                ↔ query_matches (queryOf "") c
                  ∧ (Js.toLowerCase (category c) = language (filterButton "go" false)
                     ∨ Js.toLowerCase (category c)
                       ∈ selectedLanguages (languageFilters demo)))).
Proof. apply (click_adds_language 2 "" 2 (filterButton "go" false) demo); done. Defined.

(** ** A total that is not a number *)

Lemma parseInt_not_a_number (c : ascii) (r : string) :
  Js.isWhiteSpace c = false → c ≠ "-"%char → c ≠ "+"%char → Js.digit c = None →
  Js.parseInt (String c r) = Js.NaN.
Proof.
  intros Hw Hm Hp Hd. rewrite parseInt_digits by done. simpl. by rewrite Hd.
Qed.


